(** * IMDB-scraper: the three callbacks of [ImdbSpider]

    A shallow embedding of [IMDB_scraper/spiders/imdb_spider.py].  The
    spider is three generator methods ([parse], [parse_full_credits],
    [parse_actor_page]) over a downloaded response.  Everything they do
    goes through library calls, so the development first fixes what those
    calls return:

    - [Str]: the Python [str] methods used by [urllib.parse];
    - [Ip]: the strings [ipaddress.ip_address] accepts
      (CPython 3.11, [Lib/ipaddress.py]);
    - [Url]: [urllib.parse.urljoin] (CPython 3.11, [Lib/urllib/parse.py]),
      with the [ValueError] that [urlsplit] raises on a malformed
      authority;
    - [Dom]: the parsed document and the four CSS queries, with the
      meaning parsel/cssselect give them (an XPath node-set in document
      order);
    - [Gen]: a generator run to exhaustion: what it yielded and how it
      ended;
    - [Scrapy]: [Response], [Request] and [TextResponse.urljoin].

    The callbacks follow, line by line ([ImdbSpider]), then the
    dispatcher that feeds them ([Engine]), sample pages ([Fixtures]) and
    the properties. *)

From Stdlib Require Import Ascii String.
From stdpp Require Import gmap strings list.

Local Open Scope string_scope.
Local Open Scope list_scope.

(** ** Python string methods *)

Module Str.

(** [c in s] for a one-character [c]. *)
Fixpoint has (c : ascii) (s : string) : bool :=
  match s with
  | EmptyString => false
  | String a s' => if Ascii.eqb a c then true else has c s'
  end.

(** [s.split(c, 1)]: the text before the first [c], and the text after it
    when [c] occurs. *)
Fixpoint split1 (c : ascii) (s : string) : string * option string :=
  match s with
  | EmptyString => (EmptyString, None)
  | String a s' =>
      if Ascii.eqb a c then (EmptyString, Some s')
      else let '(h, t) := split1 c s' in (String a h, t)
  end.

(** [s.split(c)]: never the empty list. *)
Fixpoint split (c : ascii) (s : string) : list string :=
  match s with
  | EmptyString => [EmptyString]
  | String a s' =>
      if Ascii.eqb a c then EmptyString :: split c s'
      else match split c s' with
           | h :: t => String a h :: t
           | [] => [String a EmptyString]
           end
  end.

(** [sep.join(l)]. *)
Fixpoint join (sep : string) (l : list string) : string :=
  match l with
  | [] => EmptyString
  | [x] => x
  | x :: l' => x +:+ sep +:+ join sep l'
  end.

(** [s.startswith(p)]. *)
Fixpoint startswith (p s : string) : bool :=
  match p, s with
  | EmptyString, _ => true
  | String _ _, EmptyString => false
  | String a p', String b s' => Ascii.eqb a b && startswith p' s'
  end.

(** [sub in s]. *)
Fixpoint contains (sub s : string) : bool :=
  startswith sub s ||
  match s with
  | EmptyString => false
  | String _ s' => contains sub s'
  end.

Definition is_upper (a : ascii) : bool :=
  let n := nat_of_ascii a in (65 <=? n)%nat && (n <=? 90)%nat.
Definition is_lower (a : ascii) : bool :=
  let n := nat_of_ascii a in (97 <=? n)%nat && (n <=? 122)%nat.
Definition is_digit (a : ascii) : bool :=
  let n := nat_of_ascii a in (48 <=? n)%nat && (n <=? 57)%nat.
Definition is_alpha (a : ascii) : bool := is_upper a || is_lower a.

Definition lower_char (a : ascii) : ascii :=
  if is_upper a then ascii_of_nat (nat_of_ascii a + 32) else a.

(** [s.lower()] on ASCII text. *)
Fixpoint lower (s : string) : string :=
  match s with
  | EmptyString => EmptyString
  | String a s' => String (lower_char a) (lower s')
  end.

Fixpoint all (p : ascii -> bool) (s : string) : bool :=
  match s with
  | EmptyString => true
  | String a s' => p a && all p s'
  end.

(** [s.lstrip(chars)] for the set of characters satisfying [p]. *)
Fixpoint lstrip (p : ascii -> bool) (s : string) : string :=
  match s with
  | EmptyString => EmptyString
  | String a s' => if p a then lstrip p s' else s
  end.

(** Every character satisfying [p] removed ([s.replace(b, "")] for each
    such [b]). *)
Fixpoint remove (p : ascii -> bool) (s : string) : string :=
  match s with
  | EmptyString => EmptyString
  | String a s' => if p a then remove p s' else String a (remove p s')
  end.

(** The longest prefix without a character satisfying [p], and the rest. *)
Fixpoint span_until (p : ascii -> bool) (s : string) : string * string :=
  match s with
  | EmptyString => (EmptyString, EmptyString)
  | String a s' =>
      if p a then (EmptyString, s)
      else let '(h, t) := span_until p s' in (String a h, t)
  end.

(** [s.rpartition(c)[2]]: the text after the last [c], all of [s] when
    [c] does not occur. *)
Fixpoint after_last (c : ascii) (s : string) : string :=
  match s with
  | EmptyString => EmptyString
  | String a s' =>
      if has c s' then after_last c s'
      else if Ascii.eqb a c then s' else s
  end.

End Str.

(** ** Exceptions *)

Inductive exn :=
  | IndexError
  | KeyError (key : string)
  | ValueError.

(** The result of a call that can raise. *)
Inductive result (A : Type) :=
  | Ok (a : A)
  | Raise (e : exn).
Arguments Ok {A} a.
Arguments Raise {A} e.

#[export] Instance result_ret : MRet result := fun A a => Ok a.
#[export] Instance result_bind : MBind result := fun A B f m =>
  match m with
  | Ok a => f a
  | Raise e => Raise e
  end.

(** ** [ipaddress] *)

Module Ip.

(** What [ip_address] needs of the two address classes: whether the
    constructor returns or raises [AddressValueError].  [None] and
    [false] stand for the raise. *)

Definition is_hex (a : ascii) : bool :=
  let n := nat_of_ascii a in
  Str.is_digit a || ((97 <=? n)%nat && (n <=? 102)%nat) ||
  ((65 <=? n)%nat && (n <=? 70)%nat).

(** [int(s, 10)] on decimal digits. *)
Definition decimal (s : string) : nat :=
  fold_left (fun n a => 10 * n + (nat_of_ascii a - 48))
    (list_ascii_of_string s) 0.

Definition hex_digit (n : nat) : ascii :=
  if (n <? 10)%nat then ascii_of_nat (48 + n) else ascii_of_nat (87 + n).

Fixpoint hex_digits (width n : nat) : string :=
  match width with
  | O => EmptyString
  | S width' =>
      (if (n <? 16)%nat then EmptyString else hex_digits width' (n / 16))
      +:+ String (hex_digit (n mod 16)) EmptyString
  end.

(** ['%x' % n] for [n] below 65536. *)
Definition hex (n : nat) : string := hex_digits 4 n.

(** [IPv4Address._parse_octet]. *)
Definition parse_octet (octet_str : string) : option nat :=
  if String.eqb octet_str "" then None
  else if negb (Str.all Str.is_digit octet_str) then None
  else if (3 <? String.length octet_str)%nat then None
  else if negb (String.eqb octet_str "0") && Str.startswith "0" octet_str
  then None
  else
    let octet_int := decimal octet_str in
    if (255 <? octet_int)%nat then None else Some octet_int.

(** [IPv4Address(address)] on a string: the four octets of the
    address. *)
Definition IPv4Address (address : string) : option (list nat) :=
  if Str.has "/" address then None
  else if String.eqb address "" then None
  else
    let octets := Str.split "." address in
    if negb (length octets =? 4)%nat then None
    else mapM parse_octet octets.

(** [IPv6Address._parse_hextet]: whether it returns. *)
Definition parse_hextet (hextet_str : string) : bool :=
  Str.all is_hex hextet_str && (String.length hextet_str <=? 4)%nat &&
  negb (String.eqb hextet_str "").

(** [IPv6Address._split_scope_id]. *)
Definition split_scope_id (ip_str : string)
    : option (string * option string) :=
  match Str.split1 "%" ip_str with
  | (addr, None) => Some (addr, None)
  | (addr, Some scope_id) =>
      if String.eqb scope_id "" || Str.has "%" scope_id then None
      else Some (addr, Some scope_id)
  end.

(** [IPv6Address._ip_int_from_string]: whether it returns. *)
Definition ip_int_from_string (ip_str : string) : bool :=
  if String.eqb ip_str "" then false
  else
    let parts := Str.split ":" ip_str in
    if (length parts <? 3)%nat then false
    else
      let tail := List.last parts EmptyString in
      let suffix :=
        if Str.has "." tail
        then match IPv4Address tail with
             | Some [a; b; c; d] => Some [hex (a * 256 + b); hex (c * 256 + d)]
             | _ => None
             end
        else Some [tail] in
      match suffix with
      | None => false
      | Some suffix =>
          let parts := List.removelast parts ++ suffix in
          if (9 <? length parts)%nat then false
          else
            let empty i := String.eqb (nth i parts "?") "" in
            match List.filter empty (seq 1 (length parts - 2)) with
            | _ :: _ :: _ => false
            | [skip_index] =>
                let first_empty := String.eqb (nth 0 parts "?") "" in
                let last_empty :=
                  String.eqb (List.last parts "?") "" in
                let parts_hi := skip_index in
                let parts_lo := length parts - skip_index - 1 in
                let parts_hi :=
                  if first_empty then parts_hi - 1 else parts_hi in
                let parts_lo :=
                  if last_empty then parts_lo - 1 else parts_lo in
                if first_empty && negb (parts_hi =? 0)%nat then false
                else if last_empty && negb (parts_lo =? 0)%nat then false
                else if (8 - (parts_hi + parts_lo) <? 1)%nat then false
                else
                  forallb parse_hextet (take parts_hi parts) &&
                  forallb parse_hextet
                    (drop (length parts - parts_lo) parts)
            | [] =>
                if negb (length parts =? 8)%nat then false
                else forallb parse_hextet parts
            end
      end.

(** [IPv6Address(address)] on a string: whether it returns. *)
Definition IPv6Address (address : string) : bool :=
  if Str.has "/" address then false
  else
    match split_scope_id address with
    | Some (addr_str, _) => ip_int_from_string addr_str
    | None => false
    end.

Inductive version := V4 | V6.

(** [ip_address(address)]: the class of the address it returns; it
    raises [ValueError] when neither constructor accepts the string. *)
Definition ip_address (address : string) : option version :=
  match IPv4Address address with
  | Some _ => Some V4
  | None => if IPv6Address address then Some V6 else None
  end.

End Ip.

(** ** [urllib.parse] *)

Module Url.

Definition uses_relative : list string :=
  [""; "ftp"; "http"; "gopher"; "nntp"; "imap";
   "wais"; "file"; "https"; "shttp"; "mms";
   "prospero"; "rtsp"; "rtspu"; "sftp";
   "svn"; "svn+ssh"; "ws"; "wss"].

Definition uses_netloc : list string :=
  [""; "ftp"; "http"; "gopher"; "nntp"; "telnet";
   "imap"; "wais"; "file"; "mms"; "https"; "shttp";
   "snews"; "prospero"; "rtsp"; "rtspu"; "rsync";
   "svn"; "svn+ssh"; "sftp"; "nfs"; "git"; "git+ssh";
   "ws"; "wss"].

Definition uses_params : list string :=
  [""; "ftp"; "hdl"; "prospero"; "http"; "imap";
   "https"; "shttp"; "rtsp"; "rtspu"; "sip"; "sips";
   "mms"; "sftp"; "tel"].

(** [x in l] on strings. *)
Definition mem (x : string) (l : list string) : bool :=
  existsb (String.eqb x) l.

(** [scheme_chars]: letters, digits and [+-.]. *)
Definition scheme_char (a : ascii) : bool :=
  Str.is_alpha a || Str.is_digit a ||
  Ascii.eqb a "+" || Ascii.eqb a "-" || Ascii.eqb a ".".

(** [_WHATWG_C0_CONTROL_OR_SPACE]: code points 0 to 32. *)
Definition c0_or_space (a : ascii) : bool := (nat_of_ascii a <=? 32)%nat.

(** [_UNSAFE_URL_BYTES_TO_REMOVE]: tab, carriage return, line feed. *)
Definition unsafe_byte (a : ascii) : bool :=
  let n := nat_of_ascii a in
  (n =? 9)%nat || (n =? 13)%nat || (n =? 10)%nat.

Definition netloc_delim (a : ascii) : bool :=
  Ascii.eqb a "/" || Ascii.eqb a "?" || Ascii.eqb a "#".

Record ParseResult := {
  scheme : string;
  netloc : string;
  path : string;
  params : string;
  query : string;
  fragment : string
}.

Definition nonempty (s : string) : bool :=
  match s with EmptyString => false | _ => true end.

(** The scheme of [url] when it has one, with the text after the colon:
    the colon is not first, the first character is a letter and every
    character before the colon is a scheme character. *)
Definition split_scheme (url : string) : option (string * string) :=
  match Str.split1 ":" url with
  | (String a _ as pre, Some rest) =>
      if Str.is_alpha a && Str.all scheme_char pre
      then Some (Str.lower pre, rest) else None
  | _ => None
  end.

(** [_splitparams]: the parameters follow the first [;] of the last path
    segment. *)
Definition splitparams (url : string) : string * string :=
  let segs := Str.split "/" url in
  match Str.split1 ";" (List.last segs EmptyString) with
  | (seg, Some p) =>
      (Str.join "/" (List.removelast segs ++ [seg]), p)
  | (_, None) => (url, EmptyString)
  end.

(** The six components [urlparse(url, scheme)] returns when it returns:
    the splitting of [urlsplit], then [_splitparams]. *)
Definition components (url default_scheme : string) : ParseResult :=
  let url := Str.remove unsafe_byte (Str.lstrip c0_or_space url) in
  let '(sch, url) :=
    match split_scheme url with
    | Some (s, rest) => (s, rest)
    | None => (default_scheme, url)
    end in
  let '(nl, url) :=
    match url with
    | String "/" (String "/" rest) => Str.span_until netloc_delim rest
    | _ => (EmptyString, url)
    end in
  let '(url, frag) :=
    match Str.split1 "#" url with
    | (u, Some f) => (u, f)
    | (u, None) => (u, EmptyString)
    end in
  let '(url, qry) :=
    match Str.split1 "?" url with
    | (u, Some q) => (u, q)
    | (u, None) => (u, EmptyString)
    end in
  let '(url, prm) :=
    if mem sch uses_params && Str.has ";" url then splitparams url
    else (url, EmptyString) in
  {| scheme := sch; netloc := nl; path := url; params := prm;
     query := qry; fragment := frag |}.

(** [_check_bracketed_host]: whether it returns.  A host that starts
    with [v] has to go on with one or more hexadecimal digits, a dot and
    one or more characters, none a line feed (the pattern of IPvFuture
    addresses); any other has to be an IPv6 address. *)
Definition check_bracketed_host (hostname : string) : bool :=
  match hostname with
  | String "v" rest =>
      match Str.split1 "." rest with
      | (digits, Some tail) =>
          nonempty digits && Str.all Ip.is_hex digits &&
          nonempty tail && negb (Str.has "010" tail)
      | (_, None) => false
      end
  | _ =>
      match Ip.ip_address hostname with
      | Some Ip.V6 => true
      | _ => false
      end
  end.

(** [_check_bracketed_netloc]: whether it returns. *)
Definition check_bracketed_netloc (netloc : string) : bool :=
  let hostname_and_port := Str.after_last "@" netloc in
  match Str.split1 "[" hostname_and_port with
  | (before_bracket, Some bracketed) =>
      if nonempty before_bracket then false
      else
        let '(hostname, port) :=
          match Str.split1 "]" bracketed with
          | (h, Some p) => (h, p)
          | (h, None) => (h, EmptyString)
          end in
        if nonempty port && negb (Str.startswith ":" port) then false
        else check_bracketed_host hostname
  | (_, None) =>
      let '(hostname, _) := Str.split1 ":" hostname_and_port in
      check_bracketed_host hostname
  end.

(** The checks [urlsplit] makes on the authority: it raises
    [ValueError] when one of the two brackets comes without the other,
    or when [_check_bracketed_netloc] does.  Its last check,
    [_checknetloc], raises only for a character whose NFKC form
    has one of [/?#@:]; no code point below 256 has such a form, and
    the characters of [string] are the code points below 256, so it
    lets every authority of this type pass. *)
Definition netloc_accepted (netloc : string) : bool :=
  let opening := Str.has "[" netloc in
  let closing := Str.has "]" netloc in
  if (opening && negb closing) || (closing && negb opening) then false
  else if opening && closing then check_bracketed_netloc netloc
  else true.

(** [urlparse(url, scheme)]: the components, or the [ValueError] of
    [urlsplit]. *)
Definition urlparse (url default_scheme : string) : result ParseResult :=
  let parsed := components url default_scheme in
  if netloc_accepted (netloc parsed) then Ok parsed else Raise ValueError.

(** [urlunparse]. *)
Definition urlunparse (p : ParseResult) : string :=
  let url := if nonempty (params p) then path p +:+ ";" +:+ params p
             else path p in
  let url :=
    if nonempty (netloc p) ||
       (nonempty (scheme p) && mem (scheme p) uses_netloc &&
        negb (Str.startswith "//" url))
    then "//" +:+ netloc p +:+
         (if nonempty url && negb (Str.startswith "/" url)
          then "/" +:+ url else url)
    else url in
  let url := if nonempty (scheme p) then scheme p +:+ ":" +:+ url else url in
  let url := if nonempty (query p) then url +:+ "?" +:+ query p else url in
  if nonempty (fragment p) then url +:+ "#" +:+ fragment p else url.

(** [segments[1:-1] = filter(None, segments[1:-1])]. *)
Definition drop_empty_middle (segments : list string) : list string :=
  match segments with
  | first :: (_ :: _) as rest =>
      first :: List.filter nonempty (List.removelast rest) ++
      [List.last rest EmptyString]
  | _ => segments
  end.

(** The loop over [segments] that builds [resolved_path]. *)
Definition resolve_segments (segments : list string) : list string :=
  fold_left (fun resolved seg =>
      if String.eqb seg ".." then List.removelast resolved
      else if String.eqb seg "." then resolved
      else resolved ++ [seg])
    segments [].

(** The body of [urljoin] once both URLs are parsed: [b] is the parsed
    base and [u] the parsed [url]. *)
Definition join (b u : ParseResult) (url : string) : string :=
  if negb (String.eqb (scheme u) (scheme b)) ||
     negb (mem (scheme u) uses_relative)
  then url
  else if mem (scheme u) uses_netloc && nonempty (netloc u)
  then urlunparse u
  else
    let nl := if mem (scheme u) uses_netloc then netloc b else netloc u in
    if negb (nonempty (path u)) && negb (nonempty (params u))
    then urlunparse
           {| scheme := scheme u; netloc := nl; path := path b;
              params := params b;
              query := if nonempty (query u) then query u else query b;
              fragment := fragment u |}
    else
      let base_parts := Str.split "/" (path b) in
      let base_parts :=
        if nonempty (List.last base_parts EmptyString)
        then List.removelast base_parts else base_parts in
      let segments :=
        if Str.startswith "/" (path u) then Str.split "/" (path u)
        else drop_empty_middle (base_parts ++ Str.split "/" (path u)) in
      let resolved := resolve_segments segments in
      let last_seg := List.last segments EmptyString in
      let resolved :=
        if String.eqb last_seg "." || String.eqb last_seg ".."
        then resolved ++ [EmptyString] else resolved in
      let joined := Str.join "/" resolved in
      urlunparse
        {| scheme := scheme u; netloc := nl;
           path := if nonempty joined then joined else "/";
           params := params u; query := query u;
           fragment := fragment u |}.

(** [urljoin(base, url)]: it raises when parsing [base] or [url]
    does. *)
Definition urljoin (base url : string) : result string :=
  if negb (nonempty base) then Ok url
  else if negb (nonempty url) then Ok base
  else
    b ← urlparse base EmptyString;
    u ← urlparse url (scheme b);
    Ok (join b u url).

End Url.

(** ** The parsed document and CSS queries *)

Module Dom.

(** An lxml tree: text nodes and elements with their [attrib] mapping. *)
#[warnings="-register-all"]
Inductive node :=
  | Text (s : string)
  | Element (tag : string) (attrib : gmap string string)
      (children : list node).

(** The whitespace of XPath's [normalize-space]: space, tab, line feed,
    carriage return. *)
Definition xml_space (a : ascii) : bool :=
  let n := nat_of_ascii a in
  (n =? 32)%nat || (n =? 9)%nat || (n =? 10)%nat || (n =? 13)%nat.

(** The run read so far, if any. *)
Definition flush (cur : string) : list string :=
  if Url.nonempty cur then [cur] else [].

(** The maximal runs of non-whitespace characters of [s]; [cur] is the
    run being read. *)
Fixpoint words (cur : string) (s : string) : list string :=
  match s with
  | EmptyString => flush cur
  | String a s' =>
      if xml_space a then flush cur ++ words EmptyString s'
      else words (cur +:+ String a EmptyString) s'
  end.

(** XPath [normalize-space(s)]. *)
Definition normalize_space (s : string) : string :=
  Str.join " " (words EmptyString s).

(** cssselect's translation of [.c]:
    [@class and contains(concat(' ', normalize-space(@class), ' '), ' c ')]. *)
Definition has_class (attrib : gmap string string) (c : string) : bool :=
  match attrib !! "class" with
  | Some v =>
      Str.contains (" " +:+ c +:+ " ") (" " +:+ normalize_space v +:+ " ")
  | None => false
  end.

(** A compound selector: an element name (or none, for [*]) and class
    names. *)
Record compound := {
  element : option string;
  classes : list string
}.

(** A selector [c1 c2 ... cn]: compounds joined by the descendant
    combinator. *)
Definition selector := list compound.

(** An element as a selector sees it: its name and its attributes. *)
Definition tagged : Type := string * gmap string string.

(** The element has the name and all the classes the compound asks for. *)
Definition matches_compound (c : compound) (e : tagged) : bool :=
  match element c with
  | Some t => bool_decide (t = e.1)
  | None => true
  end && forallb (has_class e.2) (classes c).

(** [up] are the compounds still to be matched, innermost first;
    [ancestors] the ancestors of the element, nearest first.  Taking the
    nearest ancestor that matches loses nothing: whatever lies above a
    farther match lies above the nearest one. *)
Fixpoint ancestors_match (ancestors : list tagged) (up : list compound)
    : bool :=
  match up, ancestors with
  | [], _ => true
  | _ :: _, [] => false
  | c :: up', a :: ancestors' =>
      if matches_compound c a then ancestors_match ancestors' up'
      else ancestors_match ancestors' up
  end.

(** The last compound matches the element itself, the others match
    ancestors of it, in order. *)
Definition matches (sel : selector) (ancestors : list tagged) (e : tagged)
    : bool :=
  match rev sel with
  | [] => false
  | c :: up => matches_compound c e && ancestors_match ancestors up
  end.

(** The elements under [n] ([n] included) that match [sel], in document
    order; [ancestors] are the ancestors of [n] inside the queried
    subtree. *)
Fixpoint select_from (sel : selector) (ancestors : list tagged) (n : node)
    : list node :=
  match n with
  | Text _ => []
  | Element t a children =>
      (if matches sel ancestors (t, a) then [n] else []) ++
      (fix go (l : list node) : list node :=
         match l with
         | [] => []
         | c :: l' => select_from sel ((t, a) :: ancestors) c ++ go l'
         end) children
  end.

(** The text nodes whose parent matches [sel], in document order. *)
Fixpoint select_text_from (sel : selector) (ancestors : list tagged)
    (n : node) : list string :=
  match n with
  | Text _ => []
  | Element t a children =>
      let here := matches sel ancestors (t, a) in
      (fix go (l : list node) : list string :=
         match l with
         | [] => []
         | Text s :: l' => (if here then [s] else []) ++ go l'
         | c :: l' =>
             select_text_from sel ((t, a) :: ancestors) c ++ go l'
         end) children
  end.

(** [n.css("sel")]: the query runs on the subtree of [n], as the XPath
    [descendant-or-self::...] that cssselect produces. *)
Definition css (sel : selector) (n : node) : list node :=
  select_from sel [] n.

(** [n.css("sel::text")]. *)
Definition css_text (sel : selector) (n : node) : list string :=
  select_text_from sel [] n.

(** [a.attrib] of a selected element. *)
Definition attrib_of (n : node) : gmap string string :=
  match n with
  | Element _ a _ => a
  | Text _ => ∅
  end.

Definition by_tag (t : string) : compound :=
  {| element := Some t; classes := [] |}.
Definition by_tag_class (t c : string) : compound :=
  {| element := Some t; classes := [c] |}.
Definition by_class (c : string) : compound :=
  {| element := None; classes := [c] |}.

End Dom.

(** ** Subscripts and generators *)

(** [d[k]] on a dict. *)
Definition getitem (d : gmap string string) (k : string) : result string :=
  match d !! k with
  | Some v => Ok v
  | None => Raise (KeyError k)
  end.

(** [l[0]] on a list. *)
Definition index0 {A} (l : list A) : result A :=
  match l with
  | x :: _ => Ok x
  | [] => Raise IndexError
  end.

(** [SelectorList.get()]: the first result, or [None]. *)
Definition get {A} (l : list A) : option A := head l.

Module Gen.

(** A generator body run until it returns or raises: the values it
    yielded on the way, in order, and how it ended. *)
Record gen (I A : Type) := Run {
  yielded : list I;
  ending : result A
}.
Arguments Run {I A} yielded ending.
Arguments yielded {I A} g.
Arguments ending {I A} g.

Section Ops.
Context {I : Type}.

Definition ret {A} (a : A) : gen I A := Run [] (Ok a).

Definition bind {A B} (f : A -> gen I B) (m : gen I A) : gen I B :=
  match ending m with
  | Ok a => Run (yielded m ++ yielded (f a)) (ending (f a))
  | Raise e => Run (yielded m) (Raise e)
  end.

(** [yield i]. *)
Definition yield (i : I) : gen I unit := Run [i] (Ok tt).

(** A call that may raise, made inside the generator. *)
Definition call {A} (r : result A) : gen I A := Run [] r.

(** [for x in l: body(x)]. *)
Fixpoint for_each {A} (l : list A) (body : A -> gen I unit)
    : gen I unit :=
  match l with
  | [] => ret tt
  | x :: l' => bind (fun _ => for_each l' body) (body x)
  end.
End Ops.

#[export] Instance gen_ret {I} : MRet (gen I) := fun A a => ret a.
#[export] Instance gen_bind {I} : MBind (gen I) := fun A B f m => bind f m.

(** The exception that ended the generator, if any. *)
Definition raised {I A} (g : gen I A) : option exn :=
  match ending g with Ok _ => None | Raise e => Some e end.

End Gen.
Export Gen.

(** ** Scrapy's request and response *)

Module Scrapy.

(** The spider's callbacks, as [callback=self.<method>] names them. *)
Inductive Callback :=
  | cb_parse
  | cb_parse_full_credits
  | cb_parse_actor_page.

#[export] Instance Callback_eq_dec : EqDecision Callback.
Proof. solve_decision. Defined.

Record Request := {
  req_url : string;
  callback : Callback
}.

#[export] Instance Request_eq_dec : EqDecision Request.
Proof. solve_decision. Defined.

(** The check of [Request._set_url]; a URL that fails it is refused with
    [ValueError("Missing scheme in request url")]. *)
Definition has_scheme (url : string) : bool :=
  Str.contains "://" url || Str.startswith "about:" url ||
  Str.startswith "data:" url.

(** [scrapy.Request(url, callback=cb)].  The request keeps the URL it was
    given; the escaping that [safe_url_string] applies to it is not
    modelled. *)
Definition new_Request (url : string) (cb : Callback) : result Request :=
  if has_scheme url then Ok {| req_url := url; callback := cb |}
  else Raise ValueError.

(** A downloaded HTML page ([HtmlResponse]).  [declared_base] is the
    [href] of a [<base>] tag in the first 4096 characters of the body, as
    [w3lib.html.get_base_url] finds it; [root] is the parsed body. *)
Record Response := {
  url : string;
  declared_base : option string;
  root : Dom.node
}.

(** [scrapy.utils.response.get_base_url(response)]: the URL of the
    response, or the declared base joined to it.  The escaping that
    [safe_url_string] applies to the two URLs is not modelled. *)
Definition get_base_url (response : Response) : result string :=
  match declared_base response with
  | Some href => Url.urljoin (url response) href
  | None => Ok (url response)
  end.

(** [response.urljoin(url)] of [TextResponse]: the join is made with the
    base URL of the page, and raises when [urljoin] does. *)
Definition urljoin (response : Response) (link : string) : result string :=
  base ← get_base_url response;
  Url.urljoin base link.

(** [response.css("sel")]. *)
Definition css (response : Response) (sel : Dom.selector) : list Dom.node :=
  Dom.css sel (root response).

(** [response.css("sel::text")]. *)
Definition css_text (response : Response) (sel : Dom.selector)
    : list string :=
  Dom.css_text sel (root response).

End Scrapy.
Export Scrapy.

(** ** The spider *)

(** The dict [parse_actor_page] yields; [actor] is [None] when [.get()]
    found nothing. *)
Record CreditRecord := {
  actor : option string;
  movie_or_TV_name : string
}.

#[export] Instance CreditRecord_eq_dec : EqDecision CreditRecord.
Proof. solve_decision. Defined.

(** What a callback may yield. *)
Inductive item :=
  | ItemRequest (r : Request)
  | ItemRecord (c : CreditRecord).

Module ImdbSpider.

Definition start_urls : list string :=
  ["https://www.imdb.com/title/tt1844624/"].

(** ["td.primary_photo a"] *)
Definition sel_cast_links : Dom.selector :=
  [Dom.by_tag_class "td" "primary_photo"; Dom.by_tag "a"].

(** [".itemprop"] *)
Definition sel_name : Dom.selector := [Dom.by_class "itemprop"].

(** ["div.filmo-category-section"] *)
Definition sel_section : Dom.selector :=
  [Dom.by_tag_class "div" "filmo-category-section"].

(** ["div.filmo-row b a"] *)
Definition sel_titles : Dom.selector :=
  [Dom.by_tag_class "div" "filmo-row"; Dom.by_tag "b"; Dom.by_tag "a"].

(** [a.attrib["href"]] *)
Definition href_of (a : Dom.node) : result string :=
  getitem (Dom.attrib_of a) "href".

Definition parse (response : Response) : gen item unit :=
  cast_page ← call (urljoin response "fullcredits");
  req ← call (new_Request cast_page cb_parse_full_credits);
  yield (ItemRequest req).

Definition parse_full_credits (response : Response) : gen item unit :=
  cast_links ← call (mapM href_of (css response sel_cast_links));
  for_each cast_links (fun link =>
    full_cast_link ← call (urljoin response link);
    req ← call (new_Request full_cast_link cb_parse_actor_page);
    yield (ItemRequest req)).

Definition parse_actor_page (response : Response) : gen item unit :=
  let actor_name := get (css_text response sel_name) in
  acted_in ← call (index0 (css response sel_section));
  let movies_list := Dom.css_text sel_titles acted_in in
  for_each movies_list (fun movie =>
    yield (ItemRecord {| actor := actor_name; movie_or_TV_name := movie |})).

(** The method a request's callback names. *)
Definition run_callback (cb : Callback) : Response -> gen item unit :=
  match cb with
  | cb_parse => parse
  | cb_parse_full_credits => parse_full_credits
  | cb_parse_actor_page => parse_actor_page
  end.

End ImdbSpider.
Export ImdbSpider.

(** The request the loop of [parse_full_credits] builds for the URL a
    link resolved to. *)
Definition request_for (full_cast_link : string) : item :=
  ItemRequest {| req_url := full_cast_link;
                 callback := cb_parse_actor_page |}.

(** The record [parse_actor_page] builds for [movie]. *)
Definition record_for (response : Response) (movie : string) : item :=
  ItemRecord {| actor := get (css_text response sel_name);
                movie_or_TV_name := movie |}.

(** ** The dispatcher *)

Module Engine.

(** The crawling framework's engine is not part of the repository.  It
    is modelled from the spec (sections 6 and 7): the spider hands it
    (URL, handler) pairs; it attempts each one, in an order of its
    choosing, and calls the handler on the fetched document; an exception
    raised by a handler is logged and the run goes on with the requests
    still pending.  It filters no duplicates. *)

(** A fixture document: what is served at a URL. *)
Record Page := {
  page_base : option string;
  page_root : Dom.node
}.

(** The requests not yet attempted, the records handed to the sink, in
    emission order, and the exceptions logged. *)
Record state := {
  pending : list Request;
  emitted : list CreditRecord;
  failures : list exn
}.

(** The requests among the yielded items. *)
Definition requests (l : list item) : list Request :=
  omap (fun i => match i with ItemRequest r => Some r | _ => None end) l.

(** The records among the yielded items. *)
Definition records (l : list item) : list CreditRecord :=
  omap (fun i => match i with ItemRecord c => Some c | _ => None end) l.

Section Crawl.
Variable web : gmap string Page.

(** Modelled from the spec: the fetch of a URL, answered from the
    fixtures; the response carries the URL that was requested. *)
Definition fetch (u : string) : option Response :=
  (fun p => {| url := u; declared_base := page_base p;
               root := page_root p |}) <$> web !! u.

(** Modelled from the spec: the engine calls the designated handler on
    the fetched document; nothing is produced when the fetch fails. *)
Definition handle (req : Request) : gen item unit :=
  match fetch (req_url req) with
  | Some response => run_callback (callback req) response
  | None => Run [] (Ok tt)
  end.

(** The exception to log, if the handler raised one. *)
Definition log (g : gen item unit) : list exn :=
  match ending g with
  | Ok _ => []
  | Raise e => [e]
  end.

(** Modelled from the spec: the state after [req] was taken from the
    pending requests, leaving [others], and handled.  What the handler
    yielded before it ended is kept, whether it returned or raised: the
    requests join the pending ones, the records go to the sink. *)
Definition deliver (req : Request) (others : list Request)
    (st : state) : state :=
  let g := handle req in
  {| pending := others ++ requests (yielded g);
     emitted := emitted st ++ records (yielded g);
     failures := failures st ++ log g |}.

(** Modelled from the spec: one dispatch.  Any pending request may be
    the next one: no order between requests is promised. *)
Inductive step : state -> state -> Prop :=
  | step_dispatch st before req after :
      pending st = before ++ req :: after ->
      step st (deliver req (before ++ after) st).

(** Any number of dispatches. *)
Definition steps : state -> state -> Prop := rtc step.

(** The dispatcher choosing the pending request at position [i]; a
    position past the end chooses nothing. *)
Definition dispatch (i : nat) (st : state) : state :=
  match pending st !! i with
  | Some req =>
      deliver req (take i (pending st) ++ drop (S i) (pending st)) st
  | None => st
  end.

(** A run that follows a schedule of positions. *)
Definition run (schedule : list nat) (st : state) : state :=
  foldl (fun st i => dispatch i st) st schedule.

(** The stage of a callback, counted from the end of the chain. *)
Definition rank (cb : Callback) : nat :=
  match cb with
  | cb_parse => 3
  | cb_parse_full_credits => 2
  | cb_parse_actor_page => 1
  end.

(** [req] and every request that follows from it, to depth [fuel]. *)
Fixpoint subtree (fuel : nat) (req : Request) : list Request :=
  match fuel with
  | O => []
  | S fuel' =>
      req :: (requests (yielded (handle req)) ≫= subtree fuel')
  end.

(** [req] and every request that follows from it. *)
Definition descendants (req : Request) : list Request :=
  subtree (rank (callback req)) req.

(** The records of a whole crawl from [reqs], stage by stage. *)
Definition crawl_records (reqs : list Request) : list CreditRecord :=
  (reqs ≫= descendants) ≫= (fun r => records (yielded (handle r))).
End Crawl.

(** The run starts with one request per start URL, handled by [parse]. *)
Definition start : state :=
  {| pending := (fun u => {| req_url := u; callback := cb_parse |})
                  <$> start_urls;
     emitted := [];
     failures := [] |}.

End Engine.

(** ** Sample pages *)

Module Fixtures.
Import Dom.

Definition el (t : string) (a : list (string * string)) (c : list node)
    : node :=
  Element t (list_to_map a) c.

Definition html_page (body : list node) : node :=
  el "html" [] [el "head" [] [el "title" [] [Text "IMDb"]]; el "body" [] body].

(** One row of the cast table: the photo cell, then the name cell. *)
Definition cast_row (photo_link : list (string * string)) (name : string)
    : node :=
  el "tr" [("class", "odd")]
    [el "td" [("class", "primary_photo")]
       [el "a" photo_link [el "img" [("alt", name)] []]];
     el "td" [] [el "a" [("href", "/name/other/")] [Text name]]].

Definition cast_table (rows : list node) : node :=
  html_page [el "table" [("class", "cast_list")] rows].

Definition cast_url : string := "https://x/title/tt1/fullcredits".

Definition cast_page : Response :=
  {| url := cast_url; declared_base := None;
     root := cast_table [cast_row [("href", "/name/nm1/")] "Jane Doe";
                         cast_row [("href", "/name/nm2/?ref_=ttfc")] "John Roe"] |}.

(** The second photo link has no [href]. *)
Definition cast_page_no_href : Response :=
  {| url := cast_url; declared_base := None;
     root := cast_table [cast_row [("href", "/name/nm1/")] "Jane Doe";
                         cast_row [("name", "nm2")] "John Roe"] |}.




(** No photo cell at all. *)
Definition cast_page_empty : Response :=
  {| url := cast_url; declared_base := None;
     root := html_page [el "div" [("class", "article")]
                          [el "a" [("href", "/name/nm1/")] [Text "Jane Doe"]]] |}.

Definition title_url : string := "https://x/title/tt1/".

Definition title_page : Response :=
  {| url := title_url; declared_base := None;
     root := html_page [el "h1" [] [Text "A Show"]] |}.

(** The page declares [<base href="https://y/z/">]. *)
Definition title_page_based : Response :=
  {| url := title_url; declared_base := Some "https://y/z/";
     root := html_page [el "h1" [] [Text "A Show"]] |}.

(** The page declares [<base href="mailto:x">]. *)
Definition title_page_mail_base : Response :=
  {| url := title_url; declared_base := Some "mailto:x";
     root := html_page [el "h1" [] [Text "A Show"]] |}.

(** The page declares [<base href="//[">]. *)
Definition title_page_bracket_base : Response :=
  {| url := title_url; declared_base := Some "//[";
     root := html_page [el "h1" [] [Text "A Show"]] |}.

(** One credit: the bolded title link, then annotations outside it. *)
Definition filmo_row (title : string) : node :=
  el "div" [("class", "filmo-row odd")]
    [el "span" [("class", "year_column")] [Text "2019"];
     el "b" [] [el "a" [("href", "/title/tt9/")] [Text title]];
     Text " (TV Series)";
     el "a" [("href", "/title/tt9/episodes")] [Text "Episode 1"]].

Definition filmo_head (category : string) : node :=
  el "div" [("class", "head")] [el "a" [("name", category)] [Text category]].

Definition filmo_section (titles : list string) : node :=
  el "div" [("class", "filmo-category-section")] (filmo_row <$> titles).

Definition name_header (name : string) : node :=
  el "h1" [("class", "header")] [el "span" [("class", "itemprop")] [Text name]].

Definition profile (header : list node) (filmography : list node)
    : Response :=
  {| url := "https://x/name/nm1/"; declared_base := None;
     root := html_page (header ++ [el "div" [("id", "filmography")] filmography]) |}.

Definition jane_doe : Response :=
  profile [name_header "Jane Doe"]
    [filmo_head "Actress"; filmo_section ["Film A"; "Film B"];
     filmo_head "Producer"; filmo_section ["Film C"]].

(** Directing credits come first on the page. *)
Definition director_first : Response :=
  profile [name_header "Jane Doe"]
    [filmo_head "Director"; filmo_section ["Film D"];
     filmo_head "Actress"; filmo_section ["Film A"; "Film B"]].

(** A name, no credit section. *)
Definition no_filmography : Response :=
  profile [name_header "Jane Doe"] [].

(** Credits, no name marker. *)
Definition anonymous : Response :=
  profile [el "h1" [("class", "header")] [Text "Jane Doe"]]
    [filmo_head "Actress"; filmo_section ["Film A"]].

(** The same title credited twice. *)
Definition twice_credited : Response :=
  profile [name_header "Jane Doe"]
    [filmo_head "Actress"; filmo_section ["Film A"; "Film A"]].

(** A cast of three: a page with credits, a page without any credit
    section, and another page with credits. *)
Definition cast_of_three : Response :=
  {| url := cast_url; declared_base := None;
     root := cast_table [cast_row [("href", "/name/nm1/")] "Jane Doe";
                         cast_row [("href", "/name/nm2/")] "John Roe";
                         cast_row [("href", "/name/nm3/")] "Ann Poe"] |}.

Definition ann_poe : Response :=
  profile [name_header "Ann Poe"] [filmo_head "Actress"; filmo_section ["Film E"]].

Definition page_of (r : Response) : Engine.Page :=
  {| Engine.page_base := declared_base r; Engine.page_root := root r |}.

Definition web : gmap string Engine.Page :=
  list_to_map
    [(title_url, page_of title_page);
     (cast_url, page_of cast_of_three);
     ("https://x/name/nm1/", page_of jane_doe);
     ("https://x/name/nm2/", page_of no_filmography);
     ("https://x/name/nm3/", page_of ann_poe)].

Definition seed : Engine.state :=
  {| Engine.pending := [{| req_url := title_url; callback := cb_parse |}];
     Engine.emitted := [];
     Engine.failures := [] |}.

Definition request (u : string) (cb : Callback) : item :=
  ItemRequest {| req_url := u; callback := cb |}.

Definition credit (a : option string) (t : string) : item :=
  ItemRecord {| actor := a; movie_or_TV_name := t |}.

End Fixtures.

(** ** Vocabulary of the further properties *)

(** The URL a request is made for when the page links to [link]: the
    one [response.urljoin] returns, if it returns and [Request] accepts
    it.  Either call raises [ValueError] otherwise. *)
Definition requested (response : Response) (link : string)
    : option string :=
  match urljoin response link with
  | Ok full_cast_link =>
      if has_scheme full_cast_link then Some full_cast_link else None
  | Raise _ => None
  end.

(** [link] resolves on this page and [Request] accepts the URL. *)
Definition accepted (response : Response) (link : string) : bool :=
  match requested response link with
  | Some _ => true
  | None => false
  end.

(** The URLs requested for the links before the first one at which
    [response.urljoin] or [Request] raises. *)
Fixpoint accepted_prefix (response : Response) (links : list string)
    : list string :=
  match links with
  | [] => []
  | link :: links' =>
      match requested response link with
      | Some full_cast_link =>
          full_cast_link :: accepted_prefix response links'
      | None => []
      end
  end.

(** The URL starts as an http or https URL. *)
Definition http_url (u : string) : bool :=
  Str.startswith "http://" u || Str.startswith "https://" u.

(** [urlparse] returns on [u]. *)
Definition parses (u : string) : bool :=
  match Url.urlparse u "" with
  | Ok _ => true
  | Raise _ => false
  end.

(** An http or https URL that [urlparse] accepts, as the URL of a
    fetched page is. *)
Definition web_url (u : string) : bool := http_url u && parses u.

(** A reference that names neither a scheme nor a host: a path, a query
    or a fragment on the site of the page. *)
Definition site_relative (link : string) : bool :=
  let u := Url.components link "" in
  Url.nonempty link && negb (Url.nonempty (Url.scheme u)) &&
  negb (Url.nonempty (Url.netloc u)).


(** What may follow the host in a URL: nothing, or a path, a query or a
    fragment. *)
Definition after_host (rest : string) : bool :=
  match rest with
  | EmptyString => true
  | String c _ => Url.netloc_delim c
  end.

(** The URL names a host: [urlparse] returns on it, with an
    authority. *)
Definition has_host (u : string) : bool :=
  match Url.urlparse u "" with
  | Ok p => Url.nonempty (Url.netloc p)
  | Raise _ => false
  end.

(** The scheme and the host of the page's URL, as [urlparse] reads
    them. *)
Definition site_of (u : string) : string :=
  let p := Url.components u "" in
  Url.scheme p +:+ "://" +:+ Url.netloc p.

(** A character that [urlsplit] keeps and that ends neither the host nor
    the path: anything but [/], [?], [#], tab, carriage return and line
    feed. *)
Definition path_char (a : ascii) : bool :=
  negb (Url.netloc_delim a) && negb (Url.unsafe_byte a).

(** A path segment that names a directory: not empty, made of path
    characters, and neither [.] nor [..]. *)
Definition directory_name (s : string) : bool :=
  Url.nonempty s && Str.all path_char s &&
  negb (String.eqb s ".") && negb (String.eqb s "..").

(** The last path segment: path characters, no [;]; it may be empty. *)
Definition file_name (s : string) : bool :=
  Str.all path_char s && negb (Str.has ";" s).

(** The characters of a host name with a port: letters, digits, [.],
    [-] and [:]. *)
Definition host_char (a : ascii) : bool :=
  Str.is_alpha a || Str.is_digit a || Ascii.eqb a "." || Ascii.eqb a "-" ||
  Ascii.eqb a ":".

(** [scheme://host/] *)
Definition site_root (sch host : string) : string :=
  sch +:+ "://" +:+ host +:+ "/".

(** ** The library models on known inputs *)

(** Results of CPython's [urljoin] on the URLs of this crawl. *)
Example urljoin_title_page :
  Url.urljoin "https://x/title/tt1/" "fullcredits" =
  Ok "https://x/title/tt1/fullcredits".
Proof. vm_compute. reflexivity. Qed.

Example urljoin_title_page_no_slash :
  Url.urljoin "https://x/title/tt1" "fullcredits" =
  Ok "https://x/title/fullcredits".
Proof. vm_compute. reflexivity. Qed.

Example urljoin_drops_query :
  Url.urljoin "https://www.imdb.com/title/tt1844624/?ref_=nv_sr_1"
    "fullcredits" =
  Ok "https://www.imdb.com/title/tt1844624/fullcredits".
Proof. vm_compute. reflexivity. Qed.

Example urljoin_rooted_link :
  Url.urljoin "https://x/title/tt1/fullcredits" "/name/nm0000001/" =
  Ok "https://x/name/nm0000001/".
Proof. vm_compute. reflexivity. Qed.

Example urljoin_dot_segments :
  Url.urljoin "https://x/title/tt1/fullcredits" "../x" =
  Ok "https://x/title/x".
Proof. vm_compute. reflexivity. Qed.

Example urljoin_empty_segments :
  Url.urljoin "https://x/a//b/" "c" = Ok "https://x/a/b/c".
Proof. vm_compute. reflexivity. Qed.

Example urljoin_params :
  Url.urljoin "HTTPS://X/A/B" "g;x=1/../y" = Ok "https://X/A/y".
Proof. vm_compute. reflexivity. Qed.

Example urljoin_other_scheme :
  Url.urljoin "https://x/title/tt1/" "javascript:void(0)" =
  Ok "javascript:void(0)".
Proof. vm_compute. reflexivity. Qed.

Example urljoin_base_without_hierarchy :
  Url.urljoin "mailto:x" "fullcredits" = Ok "fullcredits".
Proof. vm_compute. reflexivity. Qed.

Example urljoin_network_path :
  Url.urljoin "https://x/title/tt1/" "//other/p" = Ok "https://other/p".
Proof. vm_compute. reflexivity. Qed.

(** Where CPython's [urljoin] raises [ValueError]: a bracket without its
    pair in the authority of either URL, a bracketed host that is neither
    an IPv6 nor an IPvFuture address, text between the closing bracket
    and the port. *)
Example urljoin_ValueError :
  Url.urljoin "https://x/title/tt1/fullcredits" "//[" = Raise ValueError /\
  Url.urljoin "http://[::1" "fullcredits" = Raise ValueError /\
  Url.urljoin "https://x/" "http://[1.2.3.4]/" = Raise ValueError /\
  Url.urljoin "https://x/" "http://[::1]x/" = Raise ValueError.
Proof. repeat split; vm_compute; reflexivity. Qed.

Example urljoin_bracketed_host :
  Url.urljoin "http://[::1]:8080/title/tt1/" "fullcredits" =
    Ok "http://[::1]:8080/title/tt1/fullcredits" /\
  Url.urljoin "https://x/" "//[v1.x]/p" = Ok "https://[v1.x]/p" /\
  Url.urljoin "https://x/" "//[::ffff:1.2.3.4]/p" =
    Ok "https://[::ffff:1.2.3.4]/p".
Proof. repeat split; vm_compute; reflexivity. Qed.

Example has_class_among_others :
  Dom.has_class {[ "class" := "filmo-row odd" ]} "filmo-row" = true /\
  Dom.has_class {[ "class" := "filmo-rows" ]} "filmo-row" = false /\
  Dom.has_class {[ "id" := "filmo-row" ]} "filmo-row" = false.
Proof. repeat split; vm_compute; reflexivity. Qed.

(** The episode link of a credit is not in a [b]: only the bolded title
    is selected. *)
Example titles_of_a_row :
  Dom.css_text sel_titles (Fixtures.filmo_row "Film A") = ["Film A"].
Proof. vm_compute. reflexivity. Qed.

(** The name cell of a cast row also holds a link; only the photo cell's
    link is selected. *)
Example links_of_a_row :
  href_of <$> Dom.css sel_cast_links
                (Fixtures.cast_row [("href", "/name/nm1/")] "Jane Doe") =
  [Ok "/name/nm1/"].
Proof. vm_compute. reflexivity. Qed.

(** ** Descendant combinators: the nearest match is enough *)

(** [ancestors_match] holds exactly when the compounds can be matched, in
    order, by some ancestors taken from the nearest outwards. *)
Lemma ancestors_match_spec (ancestors : list Dom.tagged)
    (up : list Dom.compound) :
  Dom.ancestors_match ancestors up = true <->
  exists picks,
    sublist picks ancestors /\
    Forall2 (fun c a => Dom.matches_compound c a = true) up picks.
Proof.
  split.
  - revert up. induction ancestors as [|a ancestors IH]; intros up.
    + destruct up; [|discriminate]. intros _. exists []. by split.
    + destruct up as [|c up]; [intros _; exists []; split;
                               [apply sublist_nil_l | constructor]|].
      cbn [Dom.ancestors_match].
      destruct (Dom.matches_compound c a) eqn:Hca; intros Hrest.
      * destruct (IH _ Hrest) as (picks & Hsub & Hall).
        exists (a :: picks). split; [by apply sublist_skip|].
        by constructor.
      * destruct (IH _ Hrest) as (picks & Hsub & Hall).
        exists picks. split; [by apply sublist_cons|]. exact Hall.
  - intros (picks & Hsub & Hall). revert up picks Hsub Hall.
    induction ancestors as [|a ancestors IH]; intros up picks Hsub Hall.
    + apply sublist_nil_r in Hsub as ->.
      by apply Forall2_nil_inv_r in Hall as ->.
    + destruct Hall as [|c p up picks Hcp Hall]; [by destruct ancestors|].
      cbn [Dom.ancestors_match].
      destruct (Dom.matches_compound c a) eqn:Hca.
      * apply (IH up picks); [|exact Hall].
        apply sublist_cons_r in Hsub as [Hsub | (picks' & [= _ <-] & Hsub)];
          [|exact Hsub].
        etrans; [apply sublist_cons; reflexivity | exact Hsub].
      * apply (IH (c :: up) (p :: picks)); [|by constructor].
        apply sublist_cons_r in Hsub as [Hsub | (picks' & [= <- _] & _)];
          [exact Hsub | congruence].
Qed.

(** ** Generators: what a loop of yields produces *)

Section GenFacts.
Context {I : Type}.

Lemma bind_call_ok {A B} (a : A) (k : A -> gen I B) :
  call (Ok a) ≫= k = k a.
Proof. unfold mbind, gen_bind, bind. simpl. by destruct (k a). Qed.

Lemma bind_call_raise {A B} (e : exn) (k : A -> gen I B) :
  call (Raise e) ≫= k = Run [] (Raise e).
Proof. reflexivity. Qed.

Lemma ret_bind {A B} (a : A) (k : A -> gen I B) : mret a ≫= k = k a.
Proof. apply bind_call_ok. Qed.

Lemma bind_ret {A} (m : gen I A) : m ≫= mret = m.
Proof.
  destruct m as [ys [a|e]]; unfold mbind, gen_bind, bind; cbn;
    [by rewrite app_nil_r | reflexivity].
Qed.

Lemma bind_assoc {A B C} (m : gen I A) (k : A -> gen I B)
    (h : B -> gen I C) :
  (m ≫= k) ≫= h = m ≫= (fun a => k a ≫= h).
Proof.
  destruct m as [ys [a|e]]; unfold mbind, gen_bind, bind; cbn;
    [|reflexivity].
  destruct (k a) as [zs [b|e]]; cbn; [|reflexivity].
  by rewrite (assoc (++)).
Qed.

Lemma for_each_cons {A} (x : A) (l : list A) (body : A -> gen I unit) :
  for_each (x :: l) body = bind (fun _ => for_each l body) (body x).
Proof. reflexivity. Qed.

(** A loop whose body yields one value per element yields the mapped
    list and returns. *)
Lemma for_each_yield {A} (f : A -> I) (l : list A) :
  for_each l (fun x => yield (f x)) = Run (f <$> l) (Ok tt).
Proof.
  induction l as [|x l IH]; [reflexivity|].
  rewrite for_each_cons, IH. reflexivity.
Qed.

(** Whatever the loop yielded was yielded by its body. *)
Lemma for_each_yielded {A} (P : I -> Prop) (l : list A)
    (body : A -> gen I unit) :
  (forall x, Forall P (yielded (body x))) ->
  Forall P (yielded (for_each l body)).
Proof.
  intros Hbody. induction l as [|x l IH]; [constructor|].
  rewrite for_each_cons. unfold bind.
  destruct (ending (body x)); simpl; [|apply Hbody].
  apply Forall_app. split; [apply Hbody | exact IH].
Qed.
End GenFacts.

(** ** The list comprehension over the photo links *)

Lemma href_of_Some (a : Dom.node) (h : string) :
  Dom.attrib_of a !! "href" = Some h -> href_of a = Ok h.
Proof. intros Ha. unfold href_of, getitem. by rewrite Ha. Qed.

Lemma href_of_None (a : Dom.node) :
  Dom.attrib_of a !! "href" = None -> href_of a = Raise (KeyError "href").
Proof. intros Ha. unfold href_of, getitem. by rewrite Ha. Qed.

Lemma href_of_cases (a : Dom.node) :
  (exists h, href_of a = Ok h) \/ href_of a = Raise (KeyError "href").
Proof.
  unfold href_of, getitem.
  destruct (Dom.attrib_of a !! "href"); [left; eauto | by right].
Qed.

Lemma mapM_href_ok (anchors : list Dom.node) (hrefs : list string) :
  Forall2 (fun a h => Dom.attrib_of a !! "href" = Some h) anchors hrefs ->
  mapM href_of anchors = Ok hrefs.
Proof.
  induction 1 as [|a h anchors hrefs Ha _ IH]; [reflexivity|].
  cbn. rewrite (href_of_Some _ _ Ha), IH. reflexivity.
Qed.

Lemma mapM_href_raise (anchors : list Dom.node) :
  Exists (fun a => Dom.attrib_of a !! "href" = None) anchors ->
  mapM href_of anchors = Raise (KeyError "href").
Proof.
  induction 1 as [a anchors Ha | a anchors _ IH]; cbn.
  - by rewrite (href_of_None _ Ha).
  - destruct (href_of_cases a) as [[h ->] | ->]; [|reflexivity].
    cbn. by rewrite IH.
Qed.

(** ** What [urljoin] raises *)

Lemma result_bind_ok {A B} (a : A) (k : A -> result B) : Ok a ≫= k = k a.
Proof. reflexivity. Qed.

Lemma result_bind_raise {A B} (e : exn) (k : A -> result B) :
  Raise e ≫= k = Raise e.
Proof. reflexivity. Qed.

Lemma urlparse_raises (url d : string) (e : exn) :
  Url.urlparse url d = Raise e -> e = ValueError.
Proof.
  unfold Url.urlparse. case_match; [discriminate | by intros [= <-]].
Qed.

Lemma urlparse_components (url d : string) (p : Url.ParseResult) :
  Url.urlparse url d = Ok p -> p = Url.components url d.
Proof.
  unfold Url.urlparse. case_match; [by intros [= <-] | discriminate].
Qed.

Lemma url_urljoin_raises (base url : string) (e : exn) :
  Url.urljoin base url = Raise e -> e = ValueError.
Proof.
  unfold Url.urljoin. repeat case_match; try discriminate.
  destruct (Url.urlparse base "") as [b|e1] eqn:Hb.
  - rewrite result_bind_ok.
    destruct (Url.urlparse url (Url.scheme b)) as [u|e2] eqn:Hu;
      [discriminate|].
    rewrite result_bind_raise. intros [= <-]. by eapply urlparse_raises.
  - rewrite result_bind_raise. intros [= <-]. by eapply urlparse_raises.
Qed.

Lemma urljoin_raises (response : Response) (link : string) (e : exn) :
  urljoin response link = Raise e -> e = ValueError.
Proof.
  unfold urljoin. destruct (get_base_url response) as [base|e1] eqn:Hb.
  - rewrite result_bind_ok. apply url_urljoin_raises.
  - rewrite result_bind_raise. intros [= <-]. revert Hb.
    unfold get_base_url. destruct (declared_base response); [|discriminate].
    apply url_urljoin_raises.
Qed.

Lemma urljoin_own_url (response : Response) (link : string) :
  declared_base response = None ->
  urljoin response link = Url.urljoin (url response) link.
Proof. intros Hbase. unfold urljoin, get_base_url. by rewrite Hbase. Qed.

Lemma requested_Some (response : Response) (link u : string) :
  requested response link = Some u <->
  urljoin response link = Ok u /\ has_scheme u = true.
Proof.
  unfold requested. destruct (urljoin response link) as [v|e].
  - destruct (has_scheme v) eqn:Hv; split.
    + by intros [= <-].
    + by intros [[= <-] _].
    + discriminate.
    + intros [[= <-] Hu]. congruence.
  - split; [discriminate | by intros [? _]].
Qed.

(** ** The loop over the photo links *)

(** One turn of the loop of [parse_full_credits]. *)
Lemma accepted_requested (response : Response) (link : string) :
  accepted response link =
  match requested response link with Some _ => true | None => false end.
Proof. reflexivity. Qed.

Lemma loop_turn (response : Response) (link : string) :
  (full_cast_link ← call (urljoin response link);
   req ← call (new_Request full_cast_link cb_parse_actor_page);
   yield (ItemRequest req))
  = match requested response link with
    | Some full_cast_link => Run [request_for full_cast_link] (Ok tt)
    | None => Run [] (Raise ValueError)
    end.
Proof.
  unfold requested. destruct (urljoin response link) as [u|e] eqn:Hu.
  - rewrite bind_call_ok. unfold new_Request.
    destruct (has_scheme u); [by rewrite bind_call_ok | reflexivity].
  - by rewrite (urljoin_raises _ _ _ Hu).
Qed.

(** The loop of [parse_full_credits] stops at the first link at which
    [response.urljoin] or [Request] raises. *)
Lemma for_each_requests_prefix (response : Response)
    (hrefs : list string) :
  for_each hrefs (fun link =>
    full_cast_link ← call (urljoin response link);
    req ← call (new_Request full_cast_link cb_parse_actor_page);
    yield (ItemRequest req))
  = Run (request_for <$> accepted_prefix response hrefs)
        (if forallb (accepted response) hrefs then Ok tt
         else Raise ValueError).
Proof.
  induction hrefs as [|h hrefs IH]; [reflexivity|].
  rewrite for_each_cons, IH, loop_turn. cbn [accepted_prefix forallb].
  rewrite (accepted_requested response h).
  destruct (requested response h); reflexivity.
Qed.

Lemma accepted_prefix_all (response : Response)
    (hrefs urls : list string) :
  Forall2 (fun h u => requested response h = Some u) hrefs urls ->
  accepted_prefix response hrefs = urls /\
  forallb (accepted response) hrefs = true.
Proof.
  induction 1 as [|h u hrefs urls Hh _ [IHp IHa]]; [done|].
  cbn [accepted_prefix forallb]. rewrite (accepted_requested response h).
  by rewrite Hh, IHp, IHa.
Qed.

Lemma for_each_requests (response : Response) (hrefs urls : list string) :
  Forall2 (fun h u => requested response h = Some u) hrefs urls ->
  for_each hrefs (fun link =>
    full_cast_link ← call (urljoin response link);
    req ← call (new_Request full_cast_link cb_parse_actor_page);
    yield (ItemRequest req))
  = Run (request_for <$> urls) (Ok tt).
Proof.
  intros H. rewrite for_each_requests_prefix.
  by destruct (accepted_prefix_all _ _ _ H) as [-> ->].
Qed.

(** ** [parse_actor_page] *)

Lemma parse_actor_page_section (response : Response) (s : Dom.node)
    (rest : list Dom.node) :
  css response sel_section = s :: rest ->
  parse_actor_page response =
  Run (record_for response <$> Dom.css_text sel_titles s) (Ok tt).
Proof.
  intros Hs. unfold parse_actor_page. rewrite Hs. simpl index0.
  rewrite bind_call_ok. apply for_each_yield.
Qed.

Lemma parse_actor_page_no_section (response : Response) :
  css response sel_section = [] ->
  parse_actor_page response = Run [] (Raise IndexError).
Proof.
  intros Hs. unfold parse_actor_page. rewrite Hs. reflexivity.
Qed.

(** C1.  On a page with at least one credit-category section,
    [parse_actor_page] takes its titles from the first such section in
    document order, whatever the sections are headed and whatever follows:
    it returns normally and yields one record per title text of that
    section, in order. *)
Theorem C1_first_section_only (response : Response) (s : Dom.node)
    (rest : list Dom.node) :
  css response sel_section = s :: rest ->
  parse_actor_page response =
  Run (record_for response <$> Dom.css_text sel_titles s) (Ok tt).
Proof. apply parse_actor_page_section. Qed.

(** The page whose first section holds directing credits and whose second
    holds acting credits yields the directing title only. *)
Lemma C1_first_section_only_witness :
  css Fixtures.director_first sel_section =
    [Fixtures.filmo_section ["Film D"];
     Fixtures.filmo_section ["Film A"; "Film B"]] /\
  parse_actor_page Fixtures.director_first =
    Run [Fixtures.credit (Some "Jane Doe") "Film D"] (Ok tt).
Proof.
  assert (css Fixtures.director_first sel_section =
            [Fixtures.filmo_section ["Film D"];
             Fixtures.filmo_section ["Film A"; "Film B"]]) as Hs
    by (vm_compute; reflexivity).
  split; [exact Hs|].
  rewrite (C1_first_section_only _ _ _ Hs). vm_compute. reflexivity.
Defined.

(** C5.  A page whose name marker reads "Jane Doe" and whose first section
    holds the title texts "Film A", "Film B" yields exactly the two
    records (Jane Doe, Film A) and (Jane Doe, Film B), in that order, and
    returns. *)
Theorem C5_jane_doe_records (response : Response) (s : Dom.node)
    (rest : list Dom.node) :
  get (css_text response sel_name) = Some "Jane Doe" ->
  css response sel_section = s :: rest ->
  Dom.css_text sel_titles s = ["Film A"; "Film B"] ->
  parse_actor_page response =
  Run [ItemRecord {| actor := Some "Jane Doe"; movie_or_TV_name := "Film A" |};
       ItemRecord {| actor := Some "Jane Doe"; movie_or_TV_name := "Film B" |}]
      (Ok tt).
Proof.
  intros Hname Hs Htitles.
  rewrite (parse_actor_page_section _ _ _ Hs), Htitles.
  unfold record_for. rewrite Hname. reflexivity.
Qed.

Lemma C5_jane_doe_records_witness :
  parse_actor_page Fixtures.jane_doe =
  Run [Fixtures.credit (Some "Jane Doe") "Film A";
       Fixtures.credit (Some "Jane Doe") "Film B"] (Ok tt).
Proof.
  apply (C5_jane_doe_records Fixtures.jane_doe
           (Fixtures.filmo_section ["Film A"; "Film B"])
           [Fixtures.filmo_section ["Film C"]]);
    vm_compute; reflexivity.
Defined.

(** C6.  A page without a name marker does not make [parse_actor_page]
    fail: the name is [None] and processing goes on.  With at least one
    credit-category section the generator returns and yields one record
    per title of the first section, each with actor [None]; it raises
    only for the reason it raises on any page, the missing
    credit-category section, and then [IndexError]. *)
Theorem C6_missing_name_is_None (response : Response) :
  css_text response sel_name = [] ->
  (forall s rest,
     css response sel_section = s :: rest ->
     parse_actor_page response =
     Run ((fun t => ItemRecord {| actor := None; movie_or_TV_name := t |})
            <$> Dom.css_text sel_titles s) (Ok tt)) /\
  (forall e,
     raised (parse_actor_page response) = Some e ->
     e = IndexError /\ css response sel_section = []).
Proof.
  intros Hname. split.
  - intros s rest Hs. rewrite (parse_actor_page_section _ _ _ Hs).
    unfold record_for. rewrite Hname. reflexivity.
  - intros e. destruct (css response sel_section) as [|s rest] eqn:Hs.
    + rewrite (parse_actor_page_no_section _ Hs). cbn. by intros [= <-].
    + rewrite (parse_actor_page_section _ _ _ Hs). discriminate.
Qed.

Lemma C6_missing_name_is_None_witness :
  css_text Fixtures.anonymous sel_name = [] /\
  parse_actor_page Fixtures.anonymous =
    Run [Fixtures.credit None "Film A"] (Ok tt).
Proof.
  assert (css_text Fixtures.anonymous sel_name = []) as Hname
    by (vm_compute; reflexivity).
  split; [exact Hname|].
  destruct (C6_missing_name_is_None _ Hname) as [Hrecords _].
  rewrite (Hrecords (Fixtures.filmo_section ["Film A"]) []);
    vm_compute; reflexivity.
Defined.

(** C8.  Every item one call of [parse_actor_page] yields is a record
    whose actor is the name read from that page; there is one record per
    title text of the first section, repeated titles included, and none
    when the page has no section. *)
Theorem C8_one_actor_per_page (response : Response) :
  let titles := match css response sel_section with
                | s :: _ => Dom.css_text sel_titles s
                | [] => []
                end in
  yielded (parse_actor_page response) = record_for response <$> titles /\
  Forall (fun i => exists c, i = ItemRecord c /\
                     actor c = get (css_text response sel_name))
         (yielded (parse_actor_page response)) /\
  length (yielded (parse_actor_page response)) = length titles.
Proof.
  intros titles.
  assert (yielded (parse_actor_page response) = record_for response <$> titles)
    as Hy.
  { subst titles. destruct (css response sel_section) as [|s rest] eqn:Hs.
    - by rewrite (parse_actor_page_no_section _ Hs).
    - by rewrite (parse_actor_page_section _ _ _ Hs). }
  rewrite Hy. split; [reflexivity|]. split.
  - apply Forall_fmap, Forall_forall. intros t _. cbn. eauto.
  - apply length_fmap.
Qed.

(** A page may yield no record, and a title listed twice is recorded
    twice. *)
Example no_section_no_record :
  yielded (parse_actor_page Fixtures.no_filmography) = [].
Proof. vm_compute. reflexivity. Qed.

Example repeated_title_repeated_record :
  yielded (parse_actor_page Fixtures.twice_credited) =
  [Fixtures.credit (Some "Jane Doe") "Film A";
   Fixtures.credit (Some "Jane Doe") "Film A"].
Proof. vm_compute. reflexivity. Qed.

(** ** [parse_full_credits] *)

(** C7.  A cast page on which the photo-link query matches nothing yields
    nothing and returns without raising. *)
Theorem C7_no_links_no_requests (response : Response) :
  css response sel_cast_links = [] ->
  parse_full_credits response = Run [] (Ok tt).
Proof.
  intros Hnone. unfold parse_full_credits. rewrite Hnone. reflexivity.
Qed.

Lemma C7_no_links_no_requests_witness :
  parse_full_credits Fixtures.cast_page_empty = Run [] (Ok tt).
Proof.
  apply (C7_no_links_no_requests Fixtures.cast_page_empty).
  vm_compute. reflexivity.
Defined.

(** C10.  A cast page on which some matched photo link has no [href]
    raises [KeyError] while the list of links is built: nothing is
    yielded. *)
Theorem C10_missing_href_raises (response : Response) :
  Exists (fun a => Dom.attrib_of a !! "href" = None)
         (css response sel_cast_links) ->
  parse_full_credits response = Run [] (Raise (KeyError "href")).
Proof.
  intros Hmissing. unfold parse_full_credits.
  rewrite (mapM_href_raise _ Hmissing). reflexivity.
Qed.

Lemma C10_missing_href_raises_witness :
  length (css Fixtures.cast_page_no_href sel_cast_links) = 2 /\
  parse_full_credits Fixtures.cast_page_no_href =
    Run [] (Raise (KeyError "href")).
Proof.
  split; [vm_compute; reflexivity|].
  apply (C10_missing_href_raises Fixtures.cast_page_no_href).
  apply (bool_decide_unpack _). vm_compute. exact I.
Defined.

(** ** URLs that [Request] accepts *)

Lemma append_assoc (a b c : string) : (a +:+ b) +:+ c = a +:+ (b +:+ c).
Proof.
  induction a as [|x a IH]; [reflexivity|].
  change (String x ((a +:+ b) +:+ c) = String x (a +:+ (b +:+ c))).
  by rewrite IH.
Qed.

Lemma append_nil_r (a : string) : a +:+ "" = a.
Proof.
  induction a as [|x a IH]; [reflexivity|].
  change (String x (a +:+ "") = String x a). by rewrite IH.
Qed.

Lemma startswith_inv (p s : string) :
  Str.startswith p s = true -> exists rest, s = p +:+ rest.
Proof.
  revert s. induction p as [|a p IH]; intros s; [by eexists|].
  destruct s as [|b s]; [discriminate|]. cbn [Str.startswith].
  intros [Hab Hp]%andb_prop. apply Ascii.eqb_eq in Hab as ->.
  destruct (IH _ Hp) as [rest ->]. by exists rest.
Qed.

Lemma contains_scheme_sep (s t : string) :
  Str.contains "://" (s +:+ "://" +:+ t) = true.
Proof.
  induction s as [|a s IH]; [reflexivity|].
  change (Str.startswith "://" (String a (s +:+ "://" +:+ t))
          || Str.contains "://" (s +:+ "://" +:+ t) = true).
  rewrite IH. apply orb_true_r.
Qed.

(** The scheme [urlparse] reports is the one [split_scheme] found. *)
Lemma components_scheme_of (url d s rest : string) :
  Url.split_scheme
    (Str.remove Url.unsafe_byte (Str.lstrip Url.c0_or_space url))
    = Some (s, rest) ->
  Url.scheme (Url.components url d) = s.
Proof.
  intros H. unfold Url.components. rewrite H.
  repeat case_match; simplify_eq; reflexivity.
Qed.

Lemma components_http (rest d : string) :
  Url.scheme (Url.components ("http://" +:+ rest) d) = "http".
Proof. by eapply components_scheme_of. Qed.

Lemma components_https (rest d : string) :
  Url.scheme (Url.components ("https://" +:+ rest) d) = "https".
Proof. by eapply components_scheme_of. Qed.

(** The authority [urlparse] reads does not depend on the default
    scheme. *)
Lemma components_netloc_default (link d : string) :
  Url.netloc (Url.components link d) = Url.netloc (Url.components link "").
Proof.
  unfold Url.components.
  destruct (Url.split_scheme _) as [[s rest]|];
    repeat case_match; simplify_eq; reflexivity.
Qed.

Lemma parses_urlparse (u d : string) :
  parses u = true -> Url.urlparse u d = Ok (Url.components u d).
Proof.
  unfold parses, Url.urlparse. rewrite (components_netloc_default u d).
  by destruct (Url.netloc_accepted _).
Qed.

(** [urljoin] of two URLs that [urlparse] accepts. *)
Lemma url_urljoin_parsed (base url : string) :
  Url.nonempty base = true -> Url.nonempty url = true ->
  parses base = true -> parses url = true ->
  Url.urljoin base url =
  Ok (Url.join (Url.components base "")
        (Url.components url (Url.scheme (Url.components base ""))) url).
Proof.
  intros Hb Hu Hpb Hpu. unfold Url.urljoin. rewrite Hb, Hu. cbn [negb].
  rewrite (parses_urlparse _ _ Hpb), result_bind_ok.
  by rewrite (parses_urlparse _ _ Hpu), result_bind_ok.
Qed.

(** Whatever [urlunparse] builds for an [http] or [https] scheme starts
    with the scheme, a colon and two slashes. *)
Lemma has_scheme_urlunparse (p : Url.ParseResult) :
  Url.scheme p = "http" \/ Url.scheme p = "https" ->
  has_scheme (Url.urlunparse p) = true.
Proof.
  intros Hs. unfold Url.urlunparse.
  set (u0 := if Url.nonempty (Url.params p) then _ else _).
  set (u1 := if Url.nonempty (Url.netloc p) || _ then _ else _).
  assert (Str.startswith "//" u1 = true) as Hu1.
  { subst u1. destruct Hs as [-> | ->];
      cbn [Url.nonempty Url.mem existsb String.eqb Ascii.eqb Bool.eqb
           andb orb];
      destruct (Url.nonempty (Url.netloc p)); cbn [orb]; try reflexivity;
      destruct (Str.startswith "//" u0) eqn:Hu0; try reflexivity;
      exact Hu0. }
  assert (Url.nonempty (Url.scheme p) = true) as ->
    by (by destruct Hs as [-> | ->]).
  destruct (startswith_inv _ _ Hu1) as [t ->].
  assert (forall x,
    has_scheme (Url.scheme p +:+ ":" +:+ ("//" +:+ t) +:+ x) = true) as Hx.
  { intros x. unfold has_scheme.
    change (Url.scheme p +:+ ":" +:+ ("//" +:+ t) +:+ x)
      with (Url.scheme p +:+ "://" +:+ (t +:+ x)).
    by rewrite contains_scheme_sep. }
  repeat case_match; rewrite ?append_assoc; try apply Hx.
  specialize (Hx ""). by rewrite !append_nil_r in Hx.
Qed.

Ltac join_fullcredits sch parsed :=
  unfold Url.join;
  rewrite parsed;
  change (Url.components "fullcredits" sch) with
    {| Url.scheme := sch; Url.netloc := ""; Url.path := "fullcredits";
       Url.params := ""; Url.query := ""; Url.fragment := "" |};
  cbn [Url.scheme Url.netloc Url.path Url.params Url.query Url.fragment];
  change (negb (sch =? sch)%string || negb (Url.mem sch Url.uses_relative))
    with false;
  change (Url.mem sch Url.uses_netloc) with true;
  cbn [andb Url.nonempty negb];
  apply has_scheme_urlunparse; auto.

Lemma http_url_inv (u : string) :
  http_url u = true ->
  exists rest, u = "http://" +:+ rest \/ u = "https://" +:+ rest.
Proof.
  unfold http_url. intros [H | H]%orb_prop;
    destruct (startswith_inv _ _ H) as [rest ->]; eauto.
Qed.

Lemma http_url_nonempty (u : string) :
  http_url u = true -> Url.nonempty u = true.
Proof. by destruct u. Qed.

(** Joining ["fullcredits"] to an [http] or [https] URL that [urlparse]
    accepts gives a URL that [Request] accepts. *)
Lemma fullcredits_has_scheme (base : string) :
  web_url base = true ->
  exists cast_page,
    Url.urljoin base "fullcredits" = Ok cast_page /\
    has_scheme cast_page = true.
Proof.
  intros [Hhttp Hparses]%andb_prop.
  rewrite (url_urljoin_parsed base "fullcredits");
    [|by apply http_url_nonempty | reflexivity | exact Hparses
     | reflexivity].
  eexists. split; [reflexivity|]. clear Hparses.
  apply http_url_inv in Hhttp as [rest [-> | ->]].
  - join_fullcredits "http" components_http.
  - join_fullcredits "https" components_https.
Qed.

(** ** [parse] *)

Lemma parse_requested (response : Response) :
  parse response =
  match requested response "fullcredits" with
  | Some cast_page =>
      Run [ItemRequest {| req_url := cast_page;
                          callback := cb_parse_full_credits |}] (Ok tt)
  | None => Run [] (Raise ValueError)
  end.
Proof.
  unfold parse, requested.
  destruct (urljoin response "fullcredits") as [u|e] eqn:Hu.
  - rewrite bind_call_ok. unfold new_Request.
    destruct (has_scheme u); [by rewrite bind_call_ok | reflexivity].
  - by rewrite (urljoin_raises _ _ _ Hu).
Qed.

Lemma parse_accepted (response : Response) (cast_page : string) :
  urljoin response "fullcredits" = Ok cast_page ->
  has_scheme cast_page = true ->
  parse response =
  Run [ItemRequest {| req_url := cast_page;
                      callback := cb_parse_full_credits |}] (Ok tt).
Proof.
  intros Hjoin Hok. rewrite parse_requested.
  by rewrite (proj2 (requested_Some _ _ _) (conj Hjoin Hok)).
Qed.

(** A page fetched over http or https that declares no base: [parse]
    yields one request, for "fullcredits" resolved against the URL of
    the response, and returns. *)
Lemma parse_without_base (response : Response) :
  declared_base response = None ->
  web_url (url response) = true ->
  exists cast_page,
    Url.urljoin (url response) "fullcredits" = Ok cast_page /\
    parse response =
    Run [ItemRequest {| req_url := cast_page;
                        callback := cb_parse_full_credits |}] (Ok tt).
Proof.
  intros Hbase Hweb.
  destruct (fullcredits_has_scheme _ Hweb) as (cast_page & Hjoin & Hok).
  exists cast_page. split; [exact Hjoin|].
  apply parse_accepted; [|exact Hok].
  by rewrite (urljoin_own_url _ _ Hbase).
Qed.

(** C4.  The claim, like the comment above the call, has the cast page
    at "fullcredits" resolved against the URL of the response.  The
    code calls [response.urljoin], which resolves against the base URL
    of the page.  The title page at [https://x/title/tt1/] that declares
    the base [https://y/z/] is not sent to
    [https://x/title/tt1/fullcredits], the URL of the claim, but to
    [https://y/z/fullcredits].  With the base [mailto:x], or a base whose
    authority is an unclosed bracket, no request is yielded at all:
    [ValueError] is raised, by [Request] for the first and by [urljoin]
    for the second. *)
Theorem C4_base_href_moves_cast_page :
  (url Fixtures.title_page_based = "https://x/title/tt1/" /\
   declared_base Fixtures.title_page_based = Some "https://y/z/" /\
   Url.urljoin (url Fixtures.title_page_based) "fullcredits" =
     Ok "https://x/title/tt1/fullcredits" /\
   parse Fixtures.title_page_based =
     Run [Fixtures.request "https://y/z/fullcredits" cb_parse_full_credits]
         (Ok tt)) /\
  (url Fixtures.title_page_mail_base = "https://x/title/tt1/" /\
   parse Fixtures.title_page_mail_base = Run [] (Raise ValueError)) /\
  (url Fixtures.title_page_bracket_base = "https://x/title/tt1/" /\
   parse Fixtures.title_page_bracket_base = Run [] (Raise ValueError)).
Proof. repeat split; vm_compute; reflexivity. Qed.

(** Without a base the title page at [https://x/title/tt1/] is sent to
    [https://x/title/tt1/fullcredits]. *)
Example parse_title_page :
  parse Fixtures.title_page =
  Run [Fixtures.request "https://x/title/tt1/fullcredits"
         cb_parse_full_credits] (Ok tt).
Proof. vm_compute. reflexivity. Qed.

(** ** [parse_full_credits], one request per link *)

Lemma parse_full_credits_hrefs (response : Response)
    (hrefs : list string) :
  Forall2 (fun a h => Dom.attrib_of a !! "href" = Some h)
          (css response sel_cast_links) hrefs ->
  parse_full_credits response =
  Run (request_for <$> accepted_prefix response hrefs)
      (if forallb (accepted response) hrefs then Ok tt
       else Raise ValueError).
Proof.
  intros Hhrefs. unfold parse_full_credits.
  rewrite (mapM_href_ok _ _ Hhrefs), bind_call_ok.
  apply for_each_requests_prefix.
Qed.

Lemma parse_full_credits_requested (response : Response)
    (hrefs urls : list string) :
  Forall2 (fun a h => Dom.attrib_of a !! "href" = Some h)
          (css response sel_cast_links) hrefs ->
  Forall2 (fun h u => requested response h = Some u) hrefs urls ->
  parse_full_credits response = Run (request_for <$> urls) (Ok tt).
Proof.
  intros Hhrefs Hurls. rewrite (parse_full_credits_hrefs _ _ Hhrefs).
  by destruct (accepted_prefix_all _ _ _ Hurls) as [-> ->].
Qed.




(** ** The dispatcher: every run ends, and all runs emit the same records *)

Section CrawlFacts.
Import Engine.
Variable web : gmap string Page.

Lemma requests_fmap_record (response : Response) (titles : list string) :
  requests (record_for response <$> titles) = [].
Proof. induction titles as [|t titles IH]; [reflexivity | exact IH]. Qed.

(** [parse_actor_page] never asks for another page. *)
Lemma requests_parse_actor_page (response : Response) :
  requests (yielded (parse_actor_page response)) = [].
Proof.
  destruct (css response sel_section) as [|s rest] eqn:Hs.
  - by rewrite (parse_actor_page_no_section _ Hs).
  - rewrite (parse_actor_page_section _ _ _ Hs).
    apply requests_fmap_record.
Qed.

(** Every request [parse_full_credits] yields is for [parse_actor_page]. *)
Lemma yielded_parse_full_credits (response : Response) :
  Forall (fun i => exists u,
            i = ItemRequest {| req_url := u;
                               callback := cb_parse_actor_page |})
         (yielded (parse_full_credits response)).
Proof.
  unfold parse_full_credits.
  destruct (mapM href_of (css response sel_cast_links)) as [hrefs|e];
    [|constructor].
  rewrite bind_call_ok. apply for_each_yielded. intros link.
  rewrite loop_turn. destruct (requested response link); [|constructor].
  repeat constructor. unfold request_for. eauto.
Qed.

(** A callback only asks for pages of the next stage. *)
Lemma requests_rank (cb : Callback) (response : Response) (r : Request) :
  r ∈ requests (yielded (run_callback cb response)) ->
  S (rank (callback r)) = rank cb.
Proof.
  destruct cb; cbn [run_callback].
  - rewrite parse_requested. destruct (requested response "fullcredits").
    + cbn. by intros ->%list_elem_of_singleton.
    + cbn. by intros ?%elem_of_nil.
  - intros Hr. unfold requests in Hr.
    apply list_elem_of_omap in Hr as (i & Hi & Hreq).
    pose proof (yielded_parse_full_credits response) as Hall.
    rewrite Forall_forall in Hall.
    destruct (Hall _ Hi) as [u ->]. by simplify_eq.
  - rewrite requests_parse_actor_page. by intros ?%elem_of_nil.
Qed.

Lemma handle_rank (req r : Request) :
  r ∈ requests (yielded (handle web req)) ->
  S (rank (callback r)) = rank (callback req).
Proof.
  unfold handle. destruct (fetch web (req_url req)) as [response|].
  - apply requests_rank.
  - by intros ?%elem_of_nil.
Qed.

Lemma rank_pos (cb : Callback) : 0 < rank cb.
Proof. destruct cb; cbn; lia. Qed.

(** Past the stage of the request, more fuel finds nothing new. *)
Lemma subtree_fuel (n m : nat) (req : Request) :
  rank (callback req) <= n -> rank (callback req) <= m ->
  subtree web n req = subtree web m req.
Proof.
  revert m req. induction n as [|n IH]; intros m req Hn Hm.
  { pose proof (rank_pos (callback req)). lia. }
  destruct m as [|m]; [pose proof (rank_pos (callback req)); lia|].
  cbn [subtree]. f_equal. apply Forall_bind_ext, Forall_forall.
  intros r Hr. apply handle_rank in Hr. apply IH; lia.
Qed.

Lemma descendants_unfold (req : Request) :
  descendants web req =
  req :: (requests (yielded (handle web req)) ≫= descendants web).
Proof.
  unfold descendants at 1.
  destruct (rank (callback req)) as [|k] eqn:Hk.
  { pose proof (rank_pos (callback req)). lia. }
  cbn [subtree]. f_equal. apply Forall_bind_ext, Forall_forall.
  intros r Hr. apply handle_rank in Hr. unfold descendants.
  apply subtree_fuel; lia.
Qed.

(** One dispatch takes exactly one request out of what is left to do,
    and emits that request's own records. *)
Lemma step_descendants (st st' : state) :
  step web st st' ->
  exists req,
    pending st ≫= descendants web ≡ₚ
      req :: (pending st' ≫= descendants web) /\
    emitted st' = emitted st ++ records (yielded (handle web req)).
Proof.
  intros [st0 before req after Hpending]. exists req. split; [|reflexivity].
  rewrite Hpending. cbn [deliver pending].
  rewrite !bind_app, bind_cons, descendants_unfold.
  rewrite <- app_comm_cons, <- Permutation_middle. constructor.
  rewrite <- (assoc (++)).
  apply Permutation_app_head, Permutation_app_comm.
Qed.

(** What has been emitted, together with what the pending requests
    still stand for, never changes. *)
Lemma steps_records (st st' : state) :
  steps web st st' ->
  emitted st' ++ crawl_records web (pending st') ≡ₚ
  emitted st ++ crawl_records web (pending st).
Proof.
  induction 1 as [st | st st1 st' Hstep _ IH]; [reflexivity|].
  rewrite IH. clear IH.
  destruct (step_descendants _ _ Hstep) as (req & Hperm & ->).
  unfold crawl_records. rewrite Hperm, bind_cons.
  by rewrite (assoc (++)).
Qed.

(** Every run can be continued to its end. *)
Lemma steps_finish (st : state) :
  exists st', steps web st st' /\ pending st' = [].
Proof.
  remember (length (pending st ≫= descendants web)) as n eqn:Hn.
  revert st Hn. induction n as [|n IH]; intros st Hn.
  - exists st. split; [reflexivity|].
    destruct (pending st) as [|req l]; [reflexivity|].
    rewrite bind_cons, descendants_unfold in Hn. discriminate.
  - destruct (pending st) as [|req l] eqn:Hpending; [discriminate|].
    assert (step web st (deliver web req ([] ++ l) st)) as Hstep
      by (by apply step_dispatch).
    destruct (step_descendants _ _ Hstep) as (req' & Hperm & _).
    apply Permutation_length in Hperm. rewrite Hpending in Hperm.
    cbn [length] in Hperm. rewrite <- Hn in Hperm.
    destruct (IH (deliver web req ([] ++ l) st)) as (st' & Hrun & Hend);
      [congruence|].
    exists st'. split; [|exact Hend]. by eapply rtc_l.
Qed.

(** A finished run has emitted the records of the whole crawl. *)
Lemma finished_records (st st' : state) :
  steps web st st' -> pending st' = [] ->
  emitted st' ≡ₚ emitted st ++ crawl_records web (pending st).
Proof.
  intros Hrun Hend. rewrite <- (steps_records _ _ Hrun), Hend.
  unfold crawl_records. cbn. by rewrite app_nil_r.
Qed.

Lemma dispatch_steps (i : nat) (st : state) :
  steps web st (dispatch web i st).
Proof.
  unfold dispatch. destruct (pending st !! i) as [req|] eqn:Hi;
    [|reflexivity].
  apply rtc_once, step_dispatch.
  rewrite <- (take_drop_middle _ _ _ Hi) at 1. reflexivity.
Qed.

Lemma run_steps (schedule : list nat) (st : state) :
  steps web st (run web schedule st).
Proof.
  revert st. induction schedule as [|i schedule IH]; intros st;
    [reflexivity|].
  cbn [run foldl]. etrans; [apply dispatch_steps | apply IH].
Qed.

(** The crawl from the start URL can be run to its end, and what it has
    emitted then is fixed by the documents. *)
Corollary crawl_from_start :
  exists st,
    steps web start st /\ pending st = [] /\
    forall st', steps web start st' -> pending st' = [] ->
      emitted st' ≡ₚ crawl_records web (pending start).
Proof.
  destruct (steps_finish start) as (st & Hrun & Hend).
  exists st. split; [exact Hrun|]. split; [exact Hend|].
  intros st' Hrun' Hend'. apply (finished_records _ _ Hrun' Hend').
Qed.
End CrawlFacts.

(** C2.  On a page without any credit-category section,
    [parse_actor_page] raises [IndexError] before it yields anything.
    The dispatcher logs the exception and goes on: the other pending
    requests stay pending, the records emitted so far are kept, and the
    run can still be finished, emitting every record the other requests
    stand for. *)
Theorem C2_no_section_is_contained (response : Response) :
  css response sel_section = [] ->
  parse_actor_page response = Run [] (Raise IndexError) /\
  forall (web : gmap string Engine.Page) (st : Engine.state)
         (before after : list Request) (req : Request),
    callback req = cb_parse_actor_page ->
    Engine.fetch web (req_url req) = Some response ->
    Engine.pending st = before ++ req :: after ->
    let st' := Engine.deliver web req (before ++ after) st in
    Engine.step web st st' /\
    Engine.pending st' = before ++ after /\
    Engine.emitted st' = Engine.emitted st /\
    Engine.failures st' = Engine.failures st ++ [IndexError] /\
    exists final,
      Engine.steps web st' final /\
      Engine.pending final = [] /\
      Engine.emitted final ≡ₚ
        Engine.emitted st ++ Engine.crawl_records web (before ++ after).
Proof.
  intros Hnone.
  pose proof (parse_actor_page_no_section _ Hnone) as Hraise.
  split; [exact Hraise|].
  intros web st before after req Hcb Hfetch Hpending st'.
  assert (Engine.handle web req = Run [] (Raise IndexError)) as Hhandle.
  { unfold Engine.handle. by rewrite Hfetch, Hcb. }
  assert (Engine.pending st' = before ++ after) as Hpending'.
  { subst st'. unfold Engine.deliver. rewrite Hhandle. cbn.
    apply app_nil_r. }
  assert (Engine.emitted st' = Engine.emitted st) as Hemitted'.
  { subst st'. unfold Engine.deliver. rewrite Hhandle. cbn.
    apply app_nil_r. }
  split; [by apply Engine.step_dispatch|].
  split; [exact Hpending'|]. split; [exact Hemitted'|]. split.
  { subst st'. unfold Engine.deliver. by rewrite Hhandle. }
  destruct (steps_finish web st') as (final & Hrun & Hend).
  exists final. split; [exact Hrun|]. split; [exact Hend|].
  rewrite (finished_records _ _ _ Hrun Hend).
  by rewrite Hpending', Hemitted'.
Qed.

(** Three actor pages are pending and the second has no credits: after
    its failure the other two are still pending, nothing has been
    emitted or lost, and the run finishes with their records. *)
Lemma C2_no_section_is_contained_witness :
  let request_of u := {| req_url := u; callback := cb_parse_actor_page |} in
  let nm1 := request_of "https://x/name/nm1/" in
  let nm2 := request_of "https://x/name/nm2/" in
  let nm3 := request_of "https://x/name/nm3/" in
  let st := Engine.run Fixtures.web [0; 0] Fixtures.seed in
  let st' := Engine.deliver Fixtures.web nm2 ([nm1] ++ [nm3]) st in
  Engine.pending st = [nm1; nm2; nm3] /\
  Engine.handle Fixtures.web nm2 = Run [] (Raise IndexError) /\
  Engine.pending st' = [nm1; nm3] /\
  Engine.failures st' = [IndexError] /\
  exists final,
    Engine.steps Fixtures.web st' final /\
    Engine.pending final = [] /\
    Engine.emitted final ≡ₚ
      [{| actor := Some "Jane Doe"; movie_or_TV_name := "Film A" |};
       {| actor := Some "Jane Doe"; movie_or_TV_name := "Film B" |};
       {| actor := Some "Ann Poe"; movie_or_TV_name := "Film E" |}].
Proof.
  intros request_of nm1 nm2 nm3 st st'.
  pose (response := {| url := "https://x/name/nm2/"; declared_base := None;
                       root := root Fixtures.no_filmography |}).
  destruct (C2_no_section_is_contained response) as [Hraise Hengine];
    [vm_compute; reflexivity|].
  destruct (Hengine Fixtures.web st [nm1] [nm3] nm2)
    as (_ & Hpending & _ & Hfailures & final & Hrun & Hend & Hemitted);
    [reflexivity | vm_compute; reflexivity | vm_compute; reflexivity |].
  split; [vm_compute; reflexivity|].
  split; [vm_compute; reflexivity|].
  split; [exact Hpending|].
  split; [etrans; [exact Hfailures | vm_compute; reflexivity]|].
  exists final. split; [exact Hrun|]. split; [exact Hend|].
  rewrite Hemitted. vm_compute. reflexivity.
Defined.

(** C9.  What a callback yields depends on the response alone: its URL,
    the base it declares and its parsed body.  A run is therefore
    determined by the documents and by the order in which the dispatcher
    picks pending requests.  Whatever that order, the run can be
    finished, and any two finished runs over the same documents have
    emitted the same records, up to their order. *)
Theorem C9_runs_agree (web : gmap string Engine.Page)
    (st0 : Engine.state) :
  (forall cb r1 r2,
     url r1 = url r2 -> declared_base r1 = declared_base r2 ->
     root r1 = root r2 ->
     run_callback cb r1 = run_callback cb r2) /\
  (exists st, Engine.steps web st0 st /\ Engine.pending st = []) /\
  (forall st1 st2,
     Engine.steps web st0 st1 -> Engine.pending st1 = [] ->
     Engine.steps web st0 st2 -> Engine.pending st2 = [] ->
     Engine.emitted st1 ≡ₚ Engine.emitted st2).
Proof.
  split; [|split; [apply steps_finish|]].
  { intros cb [u1 b1 n1] [u2 b2 n2]. cbn. by intros -> -> ->. }
  intros st1 st2 Hrun1 Hend1 Hrun2 Hend2.
  rewrite (finished_records _ _ _ Hrun1 Hend1).
  by rewrite (finished_records _ _ _ Hrun2 Hend2).
Qed.

(** Two schedules over the same documents: the actor pages are handled
    in a different order, the records come out in a different order, and
    they are the same records. *)
Lemma C9_runs_agree_witness :
  let run1 := Engine.run Fixtures.web [0; 0; 0; 0; 0] Fixtures.seed in
  let run2 := Engine.run Fixtures.web [0; 0; 2; 1; 0] Fixtures.seed in
  Engine.emitted run1 =
    [{| actor := Some "Jane Doe"; movie_or_TV_name := "Film A" |};
     {| actor := Some "Jane Doe"; movie_or_TV_name := "Film B" |};
     {| actor := Some "Ann Poe"; movie_or_TV_name := "Film E" |}] /\
  Engine.emitted run2 =
    [{| actor := Some "Ann Poe"; movie_or_TV_name := "Film E" |};
     {| actor := Some "Jane Doe"; movie_or_TV_name := "Film A" |};
     {| actor := Some "Jane Doe"; movie_or_TV_name := "Film B" |}] /\
  Engine.emitted run1 ≡ₚ Engine.emitted run2.
Proof.
  intros run1 run2.
  split; [vm_compute; reflexivity|]. split; [vm_compute; reflexivity|].
  apply (proj2 (proj2 (C9_runs_agree Fixtures.web Fixtures.seed)));
    try apply run_steps; vm_compute; reflexivity.
Defined.

(** ** Further properties of the callbacks *)

Lemma href_of_Ok_inv (a : Dom.node) (h : string) :
  href_of a = Ok h -> Dom.attrib_of a !! "href" = Some h.
Proof.
  unfold href_of, getitem.
  destruct (Dom.attrib_of a !! "href"); [by intros [= ->] | discriminate].
Qed.


Lemma mapM_href_inv (anchors : list Dom.node) (hrefs : list string) :
  mapM href_of anchors = Ok hrefs ->
  Forall2 (fun a h => Dom.attrib_of a !! "href" = Some h) anchors hrefs.
Proof.
  revert hrefs. induction anchors as [|a anchors IH]; intros hrefs; cbn.
  - intros [= <-]. constructor.
  - destruct (href_of a) as [h|e] eqn:Ha; cbn; [|discriminate].
    destruct (mapM href_of anchors) as [hs|e]; cbn; [|discriminate].
    intros [= <-].
    constructor; [by apply href_of_Ok_inv | by apply IH].
Qed.


Lemma accepted_prefix_resolved (response : Response)
    (links : list string) :
  Forall (fun u => exists h,
            h ∈ links /\ urljoin response h = Ok u /\ has_scheme u = true)
         (accepted_prefix response links) /\
  length (accepted_prefix response links) <= length links.
Proof.
  induction links as [|h links [IHall IHlen]]; [split; [constructor | done]|].
  cbn [accepted_prefix].
  destruct (requested response h) as [u|] eqn:Hu;
    [|split; [constructor | cbn; lia]].
  apply requested_Some in Hu as [Hu Hs]. split; [|cbn; lia].
  constructor.
  - exists h. split; [apply list_elem_of_here | by split].
  - eapply Forall_impl; [exact IHall|]. intros v (h' & Hin & Hv).
    exists h'. split; [by apply list_elem_of_further | exact Hv].
Qed.




(** X1.  What each callback yields, whether it returns or raises.
    [parse] yields at most one item, the request for the cast page with
    [parse_full_credits] as callback.  [parse_full_credits] yields only
    requests with [parse_actor_page] as callback, each for the [href] of
    a matched photo link, and no more of them than there are matched
    links.  [parse_actor_page] yields only records: the crawl goes no
    further than the actor pages. *)
Theorem X1_callbacks_yield_their_stage (response : Response) :
  (Forall (fun i => exists cast_page,
                      urljoin response "fullcredits" = Ok cast_page /\
                      i = ItemRequest
                            {| req_url := cast_page;
                               callback := cb_parse_full_credits |})
          (yielded (parse response)) /\
   length (yielded (parse response)) <= 1) /\
  (Forall (fun i => exists a h full_cast_link,
                      a ∈ css response sel_cast_links /\
                      Dom.attrib_of a !! "href" = Some h /\
                      urljoin response h = Ok full_cast_link /\
                      i = request_for full_cast_link)
          (yielded (parse_full_credits response)) /\
   length (yielded (parse_full_credits response)) <=
     length (css response sel_cast_links)) /\
  Forall (fun i => exists c, i = ItemRecord c)
         (yielded (parse_actor_page response)).
Proof.
  split; [|split].
  - rewrite parse_requested.
    destruct (requested response "fullcredits") as [u|] eqn:Hu.
    + apply requested_Some in Hu as [Hu _]. cbn.
      split; [repeat constructor; eauto | lia].
    + cbn. split; [constructor | lia].
  - destruct (mapM href_of (css response sel_cast_links)) as [hrefs|e]
      eqn:Hlinks.
    + apply mapM_href_inv in Hlinks.
      rewrite (parse_full_credits_hrefs _ _ Hlinks). cbn [yielded].
      destruct (accepted_prefix_resolved response hrefs) as [Hall Hlen].
      split.
      * apply Forall_fmap. eapply Forall_impl; [exact Hall|].
        intros u (h & Hin & Hu & _). cbn.
        apply list_elem_of_lookup in Hin as [k Hk].
        destruct (Forall2_lookup_r _ _ _ _ _ Hlinks Hk) as (a & Ha & Hah).
        exists a, h, u. split; [by eapply list_elem_of_lookup_2|]. by split.
      * by rewrite length_fmap, (Forall2_length _ _ _ Hlinks).
    + unfold parse_full_credits. rewrite Hlinks. cbn.
      split; [constructor | lia].
  - destruct (css response sel_section) as [|s rest] eqn:Hs.
    + rewrite (parse_actor_page_no_section _ Hs). constructor.
    + rewrite (parse_actor_page_section _ _ _ Hs). cbn [yielded].
      apply Forall_fmap, Forall_forall. intros t _. cbn. eauto.
Qed.



(** ** Links that stay on the web *)

Lemma components_scheme_default (url d : string) :
  Url.split_scheme
    (Str.remove Url.unsafe_byte (Str.lstrip Url.c0_or_space url)) = None ->
  Url.scheme (Url.components url d) = d.
Proof.
  intros H. unfold Url.components. rewrite H.
  repeat case_match; simplify_eq; reflexivity.
Qed.


Lemma http_url_scheme (u d : string) :
  http_url u = true ->
  Url.scheme (Url.components u d) = "http" \/
  Url.scheme (Url.components u d) = "https".
Proof.
  intros [rest [-> | ->]]%http_url_inv;
    [left; apply components_http | right; apply components_https].
Qed.

Lemma split_scheme_nonempty (url s rest : string) :
  Url.split_scheme url = Some (s, rest) -> Url.nonempty s = true.
Proof.
  unfold Url.split_scheme.
  destruct (Str.split1 ":" url) as [[|a pre] [t|]]; try discriminate.
  destruct (_ && _); [|discriminate]. by intros [= <- _].
Qed.

(** A reference without a scheme of its own takes the default
    scheme. *)
Lemma components_default (link d : string) :
  Url.scheme (Url.components link "") = "" ->
  Url.scheme (Url.components link d) = d.
Proof.
  unfold Url.components.
  destruct (Url.split_scheme _) as [[s rest]|] eqn:Hs.
  - intros Hempty. apply split_scheme_nonempty in Hs.
    assert (s = "") as ->; [|discriminate].
    revert Hempty. repeat case_match; simplify_eq; done.
  - intros _. repeat case_match; simplify_eq; done.
Qed.

Lemma site_relative_inv (link : string) :
  site_relative link = true ->
  Url.nonempty link = true /\
  Url.scheme (Url.components link "") = "" /\
  Url.netloc (Url.components link "") = "".
Proof.
  unfold site_relative.
  intros [[Hne Hsch]%andb_prop Hnl]%andb_prop. split; [exact Hne|].
  split.
  - by destruct (Url.scheme (Url.components link "")).
  - by destruct (Url.netloc (Url.components link "")).
Qed.

Lemma site_relative_parses (link : string) :
  site_relative link = true -> parses link = true.
Proof.
  intros (_ & _ & Hnl)%site_relative_inv.
  unfold parses, Url.urlparse. by rewrite Hnl.
Qed.





Lemma after_host_append (x y : string) :
  after_host x = true -> after_host y = true ->
  after_host (x +:+ y) = true.
Proof. destruct x; [done|]. by intros. Qed.

(** What [urlunparse] builds for an http(s) scheme and a host starts
    with them, and the host ends there. *)
Lemma urlunparse_on_host (p : Url.ParseResult) :
  Url.scheme p = "http" \/ Url.scheme p = "https" ->
  Url.nonempty (Url.netloc p) = true ->
  exists rest,
    Url.urlunparse p =
      Url.scheme p +:+ "://" +:+ Url.netloc p +:+ rest /\
    after_host rest = true.
Proof.
  intros Hs Hnl. unfold Url.urlunparse.
  set (u0 := if Url.nonempty (Url.params p) then _ else _).
  assert (Url.nonempty (Url.scheme p) = true) as ->
    by (by destruct Hs as [-> | ->]).
  rewrite Hnl. cbn [orb].
  set (x := if Url.nonempty u0 && negb (Str.startswith "/" u0)
            then "/" +:+ u0 else u0).
  assert (after_host x = true) as Hx.
  { subst x. destruct u0 as [|c u0]; [reflexivity|].
    cbn [Url.nonempty andb].
    destruct (Str.startswith "/" (String c u0)) eqn:Hc; cbn [negb];
      [|reflexivity].
    destruct (startswith_inv _ _ Hc) as [t Ht]. by injection Ht as -> _. }
  destruct (Url.nonempty (Url.query p)) eqn:Hq;
    destruct (Url.nonempty (Url.fragment p)) eqn:Hf.
  - exists (x +:+ "?" +:+ Url.query p +:+ "#" +:+ Url.fragment p).
    split; [by rewrite !append_assoc | by apply after_host_append].
  - exists (x +:+ "?" +:+ Url.query p).
    split; [by rewrite !append_assoc | by apply after_host_append].
  - exists (x +:+ "#" +:+ Url.fragment p).
    split; [by rewrite !append_assoc | by apply after_host_append].
  - exists x. by split.
Qed.

Lemma has_host_inv (u : string) :
  has_host u = true ->
  parses u = true /\
  Url.nonempty (Url.netloc (Url.components u "")) = true.
Proof.
  unfold has_host, parses.
  destruct (Url.urlparse u "") as [p|e] eqn:Hp; [|discriminate].
  apply urlparse_components in Hp as ->. by split.
Qed.

(** Joined to an http(s) URL, a reference that names neither scheme nor
    host stays on the site of that URL. *)
Lemma urljoin_site_relative (base link : string) :
  http_url base = true -> has_host base = true ->
  site_relative link = true ->
  exists rest,
    Url.urljoin base link = Ok (site_of base +:+ rest) /\
    after_host rest = true.
Proof.
  intros Hbase [Hpb Hhost]%has_host_inv Hlink.
  rewrite (url_urljoin_parsed base link);
    [|by apply http_url_nonempty | by apply site_relative_inv | exact Hpb
     | by apply site_relative_parses].
  apply site_relative_inv in Hlink as (Hne & Hsch & Hnl).
  unfold Url.join, site_of.
  pose proof (http_url_scheme base "" Hbase) as Hb.
  set (b := Url.components base "") in *.
  pose proof (components_default link (Url.scheme b) Hsch) as Hus.
  pose proof (components_netloc_default link (Url.scheme b)) as Hun.
  rewrite Hnl in Hun.
  set (u := Url.components link (Url.scheme b)) in *.
  rewrite Hus, Hun, String.eqb_refl.
  assert (Url.mem (Url.scheme b) Url.uses_relative = true) as ->
    by (by destruct Hb as [-> | ->]).
  assert (Url.mem (Url.scheme b) Url.uses_netloc = true) as ->
    by (by destruct Hb as [-> | ->]).
  cbn [negb orb andb Url.nonempty].
  repeat case_match;
    match goal with
    | |- exists rest, Ok (Url.urlunparse ?p) = _ /\ _ =>
        destruct (urlunparse_on_host p) as (rest & -> & Hrest);
          [exact Hb | exact Hhost |]
    end; exists rest; cbn [Url.scheme Url.netloc];
    by rewrite !append_assoc.
Qed.

(** X5.  On a cast page fetched over http or https that declares no
    base, when every matched photo link has an [href] naming neither a
    scheme nor a host, every request [parse_full_credits] yields is for
    a URL on the site of the cast page: the scheme and the host of the
    URL of the response, followed by nothing or by a path, a query or a
    fragment.  There is one request per link and the generator
    returns. *)
Theorem X5_requests_stay_on_site (response : Response)
    (hrefs : list string) :
  declared_base response = None ->
  http_url (url response) = true ->
  has_host (url response) = true ->
  Forall2 (fun a h => Dom.attrib_of a !! "href" = Some h)
          (css response sel_cast_links) hrefs ->
  Forall (fun h => site_relative h = true) hrefs ->
  Forall (fun i => exists rest,
            after_host rest = true /\
            i = ItemRequest
                  {| req_url := site_of (url response) +:+ rest;
                     callback := cb_parse_actor_page |})
         (yielded (parse_full_credits response)) /\
  length (yielded (parse_full_credits response)) =
    length (css response sel_cast_links) /\
  ending (parse_full_credits response) = Ok tt.
Proof.
  intros Hbase Hhttp Hhost Hhrefs Hrel.
  assert (exists urls,
    Forall2 (fun h u => requested response h = Some u) hrefs urls /\
    Forall (fun u => exists rest,
              after_host rest = true /\
              u = site_of (url response) +:+ rest) urls)
    as (urls & Hurls & Hsite).
  { clear Hhrefs. induction Hrel as [|h hrefs Hh _ (urls & IH1 & IH2)].
    - exists []. split; constructor.
    - destruct (urljoin_site_relative _ _ Hhttp Hhost Hh)
        as (rest & Hjoin & Hrest).
      exists ((site_of (url response) +:+ rest) :: urls). split.
      + constructor; [|exact IH1]. apply requested_Some.
        rewrite (urljoin_own_url _ _ Hbase). split; [exact Hjoin|].
        unfold site_of, has_scheme. rewrite !append_assoc.
        by rewrite contains_scheme_sep.
      + constructor; [eauto | exact IH2]. }
  rewrite (parse_full_credits_requested _ _ _ Hhrefs Hurls).
  cbn [yielded ending].
  split; [|split; [|reflexivity]].
  - apply Forall_fmap. eapply Forall_impl; [exact Hsite|].
    intros u (rest & Hrest & ->). cbn. unfold request_for. eauto.
  - rewrite length_fmap, <- (Forall2_length _ _ _ Hurls).
    symmetry. by eapply Forall2_length.
Qed.

Lemma X5_requests_stay_on_site_witness :
  site_of (url Fixtures.cast_page) = "https://x" /\
  Forall (fun i => exists rest,
            after_host rest = true /\
            i = ItemRequest {| req_url := "https://x" +:+ rest;
                               callback := cb_parse_actor_page |})
         (yielded (parse_full_credits Fixtures.cast_page)).
Proof.
  split; [vm_compute; reflexivity|].
  apply (X5_requests_stay_on_site Fixtures.cast_page
           ["/name/nm1/"; "/name/nm2/?ref_=ttfc"]
           eq_refl eq_refl eq_refl ltac:(repeat constructor)
           ltac:(repeat constructor)).
Defined.

(** ** The cast page of a title page *)

Lemma all_append (p : ascii -> bool) (s t : string) :
  Str.all p (s +:+ t) = Str.all p s && Str.all p t.
Proof.
  induction s as [|a s IH]; [reflexivity|].
  change (p a && Str.all p (s +:+ t) = p a && Str.all p s && Str.all p t).
  rewrite IH. by destruct (p a).
Qed.

Lemma all_impl (p q : ascii -> bool) (s : string) :
  (forall a, p a = true -> q a = true) ->
  Str.all p s = true -> Str.all q s = true.
Proof.
  intros Hpq. induction s as [|a s IH]; [done|]. cbn [Str.all].
  intros [Ha Hs]%andb_prop. by rewrite (Hpq _ Ha), IH.
Qed.

Lemma remove_none (p : ascii -> bool) (s : string) :
  Str.all (fun a => negb (p a)) s = true -> Str.remove p s = s.
Proof.
  induction s as [|a s IH]; [done|]. cbn [Str.all Str.remove].
  intros [Ha Hs]%andb_prop. destruct (p a); [discriminate|]. by rewrite IH.
Qed.

Lemma split1_none (c : ascii) (s : string) :
  Str.all (fun a => negb (Ascii.eqb a c)) s = true ->
  Str.split1 c s = (s, None).
Proof.
  induction s as [|a s IH]; [done|]. cbn [Str.all Str.split1].
  intros [Ha Hs]%andb_prop. destruct (Ascii.eqb a c); [discriminate|].
  by rewrite IH.
Qed.

Lemma has_none (c : ascii) (s : string) :
  Str.all (fun a => negb (Ascii.eqb a c)) s = true -> Str.has c s = false.
Proof.
  induction s as [|a s IH]; [done|]. cbn [Str.all Str.has].
  intros [Ha Hs]%andb_prop. destruct (Ascii.eqb a c); [discriminate|].
  by apply IH.
Qed.

Lemma has_none_inv (c : ascii) (s : string) :
  Str.has c s = false -> Str.all (fun a => negb (Ascii.eqb a c)) s = true.
Proof.
  induction s as [|a s IH]; [done|]. cbn [Str.all Str.has].
  destruct (Ascii.eqb a c); [discriminate|]. intros H. by rewrite IH.
Qed.

Lemma split_none (c : ascii) (s : string) :
  Str.all (fun a => negb (Ascii.eqb a c)) s = true -> Str.split c s = [s].
Proof.
  induction s as [|a s IH]; [done|]. cbn [Str.all Str.split].
  intros [Ha Hs]%andb_prop. destruct (Ascii.eqb a c); [discriminate|].
  by rewrite IH.
Qed.

Lemma split_append (c : ascii) (s t : string) :
  Str.all (fun a => negb (Ascii.eqb a c)) s = true ->
  Str.split c (s +:+ String c t) = s :: Str.split c t.
Proof.
  induction s as [|a s IH].
  - intros _. change (Str.split c (String c t) = "" :: Str.split c t).
    assert (Str.split c (String c t) =
            if Ascii.eqb c c then "" :: Str.split c t
            else match Str.split c t with
                 | h :: tl => String c h :: tl
                 | [] => [String c ""]
                 end) as -> by reflexivity.
    by rewrite Ascii.eqb_refl.
  - cbn [Str.all]. intros [Ha Hs]%andb_prop.
    change (Str.split c (String a (s +:+ String c t)) =
            String a s :: Str.split c t).
    assert (forall u, Str.split c (String a u) =
            if Ascii.eqb a c then "" :: Str.split c u
            else match Str.split c u with
                 | h :: tl => String a h :: tl
                 | [] => [String a ""]
                 end) as -> by reflexivity.
    destruct (Ascii.eqb a c); [discriminate|].
    by rewrite (IH Hs).
Qed.

(** Splitting what was joined gives the parts back. *)
Lemma split_join (c : ascii) (l : list string) :
  l <> [] ->
  Forall (fun s => Str.all (fun a => negb (Ascii.eqb a c)) s = true) l ->
  Str.split c (Str.join (String c "") l) = l.
Proof.
  intros Hne Hall. induction Hall as [|x l Hx Hl IH]; [done|].
  destruct l as [|y l]; [by apply split_none|].
  change (Str.split c (x +:+ String c (Str.join (String c "") (y :: l)))
          = x :: y :: l).
  rewrite (split_append _ _ _ Hx). f_equal. by apply IH.
Qed.

Lemma span_until_append (p : ascii -> bool) (s : string) (c : ascii)
    (t : string) :
  Str.all (fun a => negb (p a)) s = true -> p c = true ->
  Str.span_until p (s +:+ String c t) = (s, String c t).
Proof.
  intros Hs Hc. induction s as [|a s IH].
  - change (Str.span_until p (String c t) = ("", String c t)).
    cbn [Str.span_until]. by rewrite Hc.
  - cbn [Str.all] in Hs. apply andb_prop in Hs as [Ha Hs].
    change (Str.span_until p (String a (s +:+ String c t)) =
            (String a s, String c t)).
    cbn [Str.span_until]. destruct (p a); [discriminate|]. by rewrite IH.
Qed.

Lemma all_join (p : ascii -> bool) (c : ascii) (l : list string) :
  p c = true -> Forall (fun s => Str.all p s = true) l ->
  Str.all p (Str.join (String c "") l) = true.
Proof.
  intros Hc. induction 1 as [|x l Hx Hl IH]; [done|].
  destruct l as [|y l]; [exact Hx|].
  change (Str.all p (x +:+ String c (Str.join (String c "") (y :: l)))
          = true).
  rewrite all_append, Hx. cbn [Str.all andb]. by rewrite Hc, IH.
Qed.

Lemma join_cons (sep x : string) (l : list string) :
  l <> [] -> Str.join sep (x :: l) = x +:+ sep +:+ Str.join sep l.
Proof. by destruct l. Qed.

Lemma join_snoc (l : list string) (x y : string) :
  Str.join "/" (l ++ [x]) +:+ y = Str.join "/" (l ++ [x +:+ y]).
Proof.
  induction l as [|z l IH]; [reflexivity|].
  cbn [app]. rewrite !join_cons by (by destruct l).
  by rewrite !append_assoc, IH.
Qed.

Lemma path_char_spec (a : ascii) :
  path_char a = true ->
  Ascii.eqb a "/" = false /\ Ascii.eqb a "?" = false /\
  Ascii.eqb a "#" = false /\ Url.unsafe_byte a = false.
Proof.
  unfold path_char, Url.netloc_delim.
  destruct (Ascii.eqb a "/"), (Ascii.eqb a "?"), (Ascii.eqb a "#"),
    (Url.unsafe_byte a); cbn; intros; try discriminate; done.
Qed.

Lemma host_char_path_char (a : ascii) :
  host_char a = true -> path_char a = true.
Proof.
  destruct a as [[] [] [] [] [] [] [] []]; vm_compute; intros; congruence.
Qed.

Ltac all_from H :=
  eapply all_impl; [|exact H]; cbn beta;
  let a := fresh "a" in let Ha := fresh "Ha" in
  intros a Ha; try apply host_char_path_char in Ha;
  apply path_char_spec in Ha as (? & ? & ? & ?);
  unfold Url.netloc_delim;
  repeat match goal with H : _ = false |- _ => rewrite H end; reflexivity.

Lemma splitparams_none (P : string) :
  Str.has ";" (List.last (Str.split "/" P) "") = false ->
  Url.splitparams P = (P, "").
Proof.
  intros Hlast. unfold Url.splitparams.
  by rewrite (split1_none _ _ (has_none_inv _ _ Hlast)).
Qed.

Lemma last_snoc (l : list string) (x : string) : List.last (l ++ [x]) "" = x.
Proof. apply List.last_last. Qed.

(** The parse of [scheme://host/d1/.../dn/file]. *)
Lemma components_directory (sch host : string) (l : list string)
    (file : string) :
  sch = "http" \/ sch = "https" ->
  Url.nonempty host = true -> Str.all host_char host = true ->
  Forall (fun s => Str.all path_char s = true) l ->
  file_name file = true ->
  Url.components (site_root sch host +:+ Str.join "/" (l ++ [file])) "" =
  {| Url.scheme := sch; Url.netloc := host;
     Url.path := "/" +:+ Str.join "/" (l ++ [file]);
     Url.params := ""; Url.query := ""; Url.fragment := "" |}.
Proof.
  intros Hsch Hne Hhost Hl Hfile.
  apply andb_prop in Hfile as [Hfile Hsemi].
  assert (Forall (fun s => Str.all path_char s = true) (l ++ [file])) as Hall.
  { apply Forall_app. split; [exact Hl | by repeat constructor]. }
  set (J := Str.join "/" (l ++ [file])) in *.
  assert (forall q, (forall a, path_char a = true -> q a = true) ->
                    q "/"%char = true -> Str.all q J = true) as HJ.
  { intros q Hq Hslash. apply all_join; [exact Hslash|].
    eapply Forall_impl; [exact Hall|]. intros s Hs. by eapply all_impl. }
  unfold Url.components, site_root.
  assert (Str.remove Url.unsafe_byte
            (Str.lstrip Url.c0_or_space
               ((sch +:+ "://" +:+ host +:+ "/") +:+ J)) =
          sch +:+ "://" +:+ host +:+ String "/" J) as ->.
  { rewrite !append_assoc.
    change ("/" +:+ J) with (String "/" J).
    assert (Str.lstrip Url.c0_or_space (sch +:+ "://" +:+ host +:+ String "/" J)
            = sch +:+ "://" +:+ host +:+ String "/" J) as ->
      by (by destruct Hsch as [-> | ->]).
    apply remove_none. rewrite !all_append.
    assert (Str.all (fun a => negb (Url.unsafe_byte a)) sch = true) as ->
      by (by destruct Hsch as [-> | ->]).
    assert (Str.all (fun a => negb (Url.unsafe_byte a)) host = true) as ->
      by (all_from Hhost).
    cbn [Str.all andb].
    change (negb (Url.unsafe_byte "/")) with true. cbn [andb].
    apply HJ; [|reflexivity].
    intros a Ha. apply path_char_spec in Ha as (_ & _ & _ & ->). reflexivity. }
  assert (Url.split_scheme (sch +:+ "://" +:+ host +:+ String "/" J) =
          Some (sch, String "/" (String "/" (host +:+ String "/" J)))) as ->
    by (by destruct Hsch as [-> | ->]).
  cbn beta iota zeta.
  rewrite span_until_append; [|all_from Hhost | reflexivity].
  assert (Str.all (fun a => negb (Ascii.eqb a "#")) (String "/" J) = true)
    as Hhash.
  { cbn [Str.all]. change (negb (Ascii.eqb "/" "#")) with true. cbn [andb].
    apply HJ; [|reflexivity].
    intros a Ha. apply path_char_spec in Ha as (_ & _ & -> & _). reflexivity. }
  rewrite (split1_none _ _ Hhash).
  assert (Str.all (fun a => negb (Ascii.eqb a "?")) (String "/" J) = true)
    as Hquery.
  { cbn [Str.all]. change (negb (Ascii.eqb "/" "?")) with true. cbn [andb].
    apply HJ; [|reflexivity].
    intros a Ha. apply path_char_spec in Ha as (_ & -> & _ & _). reflexivity. }
  rewrite (split1_none _ _ Hquery).
  assert (Url.splitparams (String "/" J) = (String "/" J, "")) as Hparams.
  { apply splitparams_none.
    assert (Str.split "/" (String "/" J) = "" :: Str.split "/" J) as ->
      by reflexivity.
    subst J. rewrite split_join.
    - change ("" :: l ++ [file]) with (("" :: l) ++ [file]).
      rewrite last_snoc. by destruct (Str.has ";" file).
    - by destruct l.
    - eapply Forall_impl; [exact Hall|]. intros s Hs. cbn beta.
      eapply all_impl; [|exact Hs]. intros a Ha. cbn beta.
      apply path_char_spec in Ha as (-> & _). reflexivity. }
  rewrite Hparams.
  by destruct (Url.mem sch Url.uses_params && Str.has ";" (String "/" J)).
Qed.

(** A host made of host characters has no bracket: [urlparse] accepts
    it. *)
Lemma host_char_accepted (host : string) :
  Str.all host_char host = true -> Url.netloc_accepted host = true.
Proof.
  intros Hhost. unfold Url.netloc_accepted.
  assert (Str.has "[" host = false) as ->.
  { apply has_none. eapply all_impl; [|exact Hhost].
    intros [[] [] [] [] [] [] [] []]; vm_compute; congruence. }
  assert (Str.has "]" host = false) as ->.
  { apply has_none. eapply all_impl; [|exact Hhost].
    intros [[] [] [] [] [] [] [] []]; vm_compute; congruence. }
  reflexivity.
Qed.

Lemma parses_directory (sch host : string) (l : list string)
    (file : string) :
  sch = "http" \/ sch = "https" ->
  Url.nonempty host = true -> Str.all host_char host = true ->
  Forall (fun s => Str.all path_char s = true) l ->
  file_name file = true ->
  parses (site_root sch host +:+ Str.join "/" (l ++ [file])) = true.
Proof.
  intros Hsch Hne Hhost Hl Hfile. unfold parses, Url.urlparse.
  rewrite (components_directory sch host l file) by assumption.
  cbn [Url.netloc]. by rewrite (host_char_accepted _ Hhost).
Qed.

Lemma drop_empty_middle_snoc (x : string) (mid : list string) (z : string) :
  Url.drop_empty_middle (x :: mid ++ [z]) =
  x :: List.filter Url.nonempty mid ++ [z].
Proof.
  unfold Url.drop_empty_middle.
  destruct (mid ++ [z]) as [|y rest] eqn:Hrest; [by destruct mid|].
  rewrite <- Hrest, List.removelast_last, List.last_last. reflexivity.
Qed.

Lemma filter_nonempty_all (l : list string) :
  Forall (fun s => Url.nonempty s = true) l ->
  List.filter Url.nonempty l = l.
Proof.
  induction 1 as [|x l Hx _ IH]; [done|]. cbn. by rewrite Hx, IH.
Qed.

Lemma resolve_segments_plain (l : list string) :
  Forall (fun s => String.eqb s ".." = false /\ String.eqb s "." = false) l ->
  Url.resolve_segments l = l.
Proof.
  unfold Url.resolve_segments. intros Hl.
  enough (forall acc,
    fold_left (fun resolved seg =>
        if String.eqb seg ".." then List.removelast resolved
        else if String.eqb seg "." then resolved
        else resolved ++ [seg]) l acc = acc ++ l) as H by apply (H []).
  induction Hl as [|x l [Hx1 Hx2] _ IH]; intros acc; cbn [fold_left].
  - by rewrite app_nil_r.
  - rewrite Hx1, Hx2, IH. by rewrite <- (assoc (++)).
Qed.

Lemma directory_name_spec (s : string) :
  directory_name s = true ->
  Url.nonempty s = true /\ Str.all path_char s = true /\
  String.eqb s ".." = false /\ String.eqb s "." = false.
Proof.
  unfold directory_name.
  intros [[[H1 H2]%andb_prop H3]%andb_prop H4]%andb_prop.
  repeat split; try done.
  - by destruct (String.eqb s "..").
  - by destruct (String.eqb s ".").
Qed.

(** Joining "fullcredits" to [scheme://host/d1/.../dn/file] replaces
    [file]. *)
Lemma urljoin_directory (sch host : string) (dirs : list string)
    (file : string) :
  sch = "http" \/ sch = "https" ->
  Url.nonempty host = true -> Str.all host_char host = true ->
  Forall (fun s => directory_name s = true) dirs ->
  file_name file = true ->
  Url.urljoin (site_root sch host +:+ Str.join "/" (dirs ++ [file]))
    "fullcredits" =
  Ok (site_root sch host +:+ Str.join "/" (dirs ++ ["fullcredits"])).
Proof.
  intros Hsch Hne Hhost Hdirs Hfile.
  assert (Forall (fun s => Str.all path_char s = true) dirs) as Hchars.
  { eapply Forall_impl; [exact Hdirs|]. intros s Hs.
    by apply directory_name_spec in Hs as (_ & ? & _). }
  assert (Str.split "/" ("/" +:+ Str.join "/" (dirs ++ [file])) =
          "" :: dirs ++ [file]) as Hsplit.
  { change ("/" +:+ Str.join "/" (dirs ++ [file]))
      with (String "/" (Str.join "/" (dirs ++ [file]))).
    assert (forall u, Str.split "/" (String "/" u) = "" :: Str.split "/" u)
      as -> by reflexivity.
    f_equal. apply split_join; [by destruct dirs|].
    apply Forall_app. split.
    - eapply Forall_impl; [exact Hchars|]. intros s Hs. cbn beta.
      eapply all_impl; [|exact Hs]. intros a Ha. cbn beta.
      apply path_char_spec in Ha as (-> & _). reflexivity.
    - repeat constructor. apply andb_prop in Hfile as [Hfile _].
      eapply all_impl; [|exact Hfile]. intros a Ha. cbn beta.
      apply path_char_spec in Ha as (-> & _). reflexivity. }
  rewrite url_urljoin_parsed;
    [|by destruct Hsch as [-> | ->] | reflexivity
     |by apply parses_directory | reflexivity].
  unfold Url.join.
  rewrite (components_directory sch host dirs file) by assumption.
  cbn [Url.scheme Url.netloc Url.path Url.params Url.query Url.fragment].
  assert (Url.components "fullcredits" sch =
          {| Url.scheme := sch; Url.netloc := ""; Url.path := "fullcredits";
             Url.params := ""; Url.query := ""; Url.fragment := "" |}) as ->
    by (by destruct Hsch as [-> | ->]).
  cbn [Url.scheme Url.netloc Url.path Url.params Url.query Url.fragment].
  rewrite String.eqb_refl.
  assert (Url.mem sch Url.uses_relative = true) as ->
    by (by destruct Hsch as [-> | ->]).
  assert (Url.mem sch Url.uses_netloc = true) as ->
    by (by destruct Hsch as [-> | ->]).
  cbn [negb orb andb Url.nonempty].
  change (Str.startswith "/" "fullcredits") with false. cbn iota.
  rewrite Hsplit.
  change ("" :: dirs ++ [file]) with (("" :: dirs) ++ [file]).
  rewrite List.last_last, List.removelast_last.
  change (Str.split "/" "fullcredits") with ["fullcredits"].
  assert ((if Url.nonempty file then "" :: dirs else ("" :: dirs) ++ [file])
            ++ ["fullcredits"] =
          "" :: (if Url.nonempty file then dirs else dirs ++ [file])
            ++ ["fullcredits"]) as -> by (by destruct (Url.nonempty file)).
  rewrite drop_empty_middle_snoc.
  assert (List.filter Url.nonempty
            (if Url.nonempty file then dirs else dirs ++ [file]) = dirs)
    as ->.
  { assert (List.filter Url.nonempty dirs = dirs) as Hf.
    { apply filter_nonempty_all. eapply Forall_impl; [exact Hdirs|].
      intros s Hs. by apply directory_name_spec in Hs as (? & _). }
    destruct (Url.nonempty file) eqn:Hnf; [exact Hf|].
    rewrite List.filter_app, Hf. cbn. rewrite Hnf. apply app_nil_r. }
  change ("" :: dirs ++ ["fullcredits"]) with (("" :: dirs) ++ ["fullcredits"]).
  rewrite List.last_last.
  change (String.eqb "fullcredits" "." || String.eqb "fullcredits" "..")
    with false. cbn iota.
  rewrite resolve_segments_plain.
  2:{ apply Forall_app. split; [constructor; [by split|]|by repeat constructor].
      eapply Forall_impl; [exact Hdirs|]. intros s Hs.
      by apply directory_name_spec in Hs as (_ & _ & ? & ?). }
  change (("" :: dirs) ++ ["fullcredits"]) with ("" :: dirs ++ ["fullcredits"]).
  rewrite join_cons by (by destruct dirs).
  change ("" +:+ "/" +:+ Str.join "/" (dirs ++ ["fullcredits"]))
    with (String "/" (Str.join "/" (dirs ++ ["fullcredits"]))).
  cbn [Url.nonempty].
  unfold Url.urlunparse.
  cbn [Url.scheme Url.netloc Url.path Url.params Url.query Url.fragment
       Url.nonempty].
  rewrite Hne. cbn [orb].
  assert (forall u, Str.startswith "/" (String "/" u) = true) as ->
    by reflexivity.
  cbn [negb andb].
  assert (Url.nonempty sch = true) as -> by (by destruct Hsch as [-> | ->]).
  unfold site_root. rewrite !append_assoc. reflexivity.
Qed.

(** X6.  For a title page without a declared base whose URL is
    [scheme://host/d1/.../dn/file] over http or https, [parse] requests
    the URL in which "fullcredits" takes the place of [file].  When the
    URL ends with a slash ([file] is empty) that is the URL of the page
    followed by "fullcredits", as the comment in [parse] says; otherwise
    the last segment of the page's URL is lost. *)
Theorem X6_cast_page_replaces_last_segment (response : Response)
    (sch host : string) (dirs : list string) (file : string) :
  url response = site_root sch host +:+ Str.join "/" (dirs ++ [file]) ->
  declared_base response = None ->
  sch = "http" \/ sch = "https" ->
  Url.nonempty host = true -> Str.all host_char host = true ->
  Forall (fun s => directory_name s = true) dirs ->
  file_name file = true ->
  parse response =
    Run [ItemRequest
           {| req_url := site_root sch host +:+
                         Str.join "/" (dirs ++ ["fullcredits"]);
              callback := cb_parse_full_credits |}] (Ok tt) /\
  (file = "" ->
   site_root sch host +:+ Str.join "/" (dirs ++ ["fullcredits"]) =
   url response +:+ "fullcredits").
Proof.
  intros Hurl Hbase Hsch Hne Hhost Hdirs Hfile.
  assert (urljoin response "fullcredits" =
          Ok (site_root sch host +:+
              Str.join "/" (dirs ++ ["fullcredits"])))
    as Hjoin.
  { rewrite (urljoin_own_url _ _ Hbase), Hurl.
    by apply urljoin_directory. }
  split.
  - apply (parse_accepted _ _ Hjoin).
    unfold site_root, has_scheme. rewrite !append_assoc.
    by rewrite contains_scheme_sep.
  - intros ->. rewrite Hurl, append_assoc. f_equal.
    symmetry. apply (join_snoc dirs "" "fullcredits").
Qed.

(** The title page at [https://x/title/tt1/], and the same page reached
    without the final slash. *)
Lemma X6_cast_page_replaces_last_segment_witness :
  parse Fixtures.title_page =
    Run [Fixtures.request "https://x/title/tt1/fullcredits"
           cb_parse_full_credits] (Ok tt) /\
  parse {| url := "https://x/title/tt1"; declared_base := None;
           root := root Fixtures.title_page |} =
    Run [Fixtures.request "https://x/title/fullcredits"
           cb_parse_full_credits] (Ok tt).
Proof.
  split.
  - apply (X6_cast_page_replaces_last_segment Fixtures.title_page
             "https" "x" ["title"; "tt1"] "");
      try reflexivity; [by right | by repeat constructor].
  - apply (X6_cast_page_replaces_last_segment
             {| url := "https://x/title/tt1"; declared_base := None;
                root := root Fixtures.title_page |}
             "https" "x" ["title"] "tt1");
      try reflexivity; [by right | by repeat constructor].
Defined.

(** ** The crawl as a composition of the callbacks *)

Section Composition.
Import Engine.
Variable web : gmap string Page.

Lemma records_only_requests (l : list item) :
  Forall (fun i => exists r, i = ItemRequest r) l -> records l = [].
Proof.
  induction 1 as [|i l [r ->] _ IH]; [reflexivity | exact IH].
Qed.

Lemma records_parse (response : Response) :
  records (yielded (parse response)) = [].
Proof.
  rewrite parse_requested.
  by destruct (requested response "fullcredits").
Qed.

Lemma records_parse_full_credits (response : Response) :
  records (yielded (parse_full_credits response)) = [].
Proof.
  apply records_only_requests.
  eapply Forall_impl; [apply yielded_parse_full_credits|].
  intros i [u ->]. eauto.
Qed.

(** Only the actor pages give records. *)
Lemma handle_records (req : Request) :
  callback req <> cb_parse_actor_page ->
  records (yielded (handle web req)) = [].
Proof.
  intros Hcb. unfold handle.
  destruct (fetch web (req_url req)) as [response|]; [|reflexivity].
  destruct (callback req); cbn [run_callback];
    [apply records_parse | apply records_parse_full_credits | done].
Qed.

(** The actor pages ask for nothing. *)
Lemma handle_requests_actor (req : Request) :
  callback req = cb_parse_actor_page ->
  requests (yielded (handle web req)) = [].
Proof.
  intros Hcb. unfold handle.
  destruct (fetch web (req_url req)) as [response|]; [|reflexivity].
  rewrite Hcb. apply requests_parse_actor_page.
Qed.

Lemma handle_next (req r : Request) :
  r ∈ requests (yielded (handle web req)) ->
  match callback req with
  | cb_parse => callback r = cb_parse_full_credits
  | cb_parse_full_credits => callback r = cb_parse_actor_page
  | cb_parse_actor_page => False
  end.
Proof.
  intros Hr. apply handle_rank in Hr.
  destruct (callback req), (callback r); cbn in Hr; try lia; done.
Qed.

Lemma bind_bind {A B C} (f : A -> list B) (g : B -> list C) (l : list A) :
  (l ≫= f) ≫= g = l ≫= (fun x => f x ≫= g).
Proof.
  induction l as [|x l IH]; [reflexivity|].
  by rewrite !bind_cons, bind_app, IH.
Qed.

Lemma crawl_records_actor (req : Request) :
  callback req = cb_parse_actor_page ->
  crawl_records web [req] = records (yielded (handle web req)).
Proof.
  intros Hcb. unfold crawl_records.
  rewrite bind_singleton, descendants_unfold, handle_requests_actor by done.
  cbn. apply app_nil_r.
Qed.

Lemma crawl_records_bind (reqs : list Request) :
  crawl_records web reqs = reqs ≫= (fun r => crawl_records web [r]).
Proof.
  unfold crawl_records. rewrite bind_bind.
  apply Forall_bind_ext, Forall_forall. intros r _.
  by rewrite bind_singleton.
Qed.

(** A request that is not for an actor page stands for the records of
    the requests its page yields. *)
Lemma crawl_records_unfold (req : Request) :
  callback req <> cb_parse_actor_page ->
  crawl_records web [req] =
  requests (yielded (handle web req)) ≫= (fun r => crawl_records web [r]).
Proof.
  intros Hcb. unfold crawl_records at 1.
  rewrite bind_singleton, descendants_unfold, bind_cons.
  rewrite (handle_records _ Hcb). cbn [app].
  apply (crawl_records_bind (requests (yielded (handle web req)))).
Qed.

Lemma crawl_records_title (seed : Request) :
  callback seed = cb_parse ->
  crawl_records web [seed] =
  requests (yielded (handle web seed)) ≫= (fun cast =>
    requests (yielded (handle web cast)) ≫= (fun actor =>
      records (yielded (handle web actor)))).
Proof.
  intros Hseed. rewrite crawl_records_unfold by congruence.
  apply Forall_bind_ext, Forall_forall. intros cast Hcast.
  apply handle_next in Hcast. rewrite Hseed in Hcast.
  rewrite crawl_records_unfold by congruence.
  apply Forall_bind_ext, Forall_forall. intros actor Hactor.
  apply handle_next in Hactor. rewrite Hcast in Hactor.
  by apply crawl_records_actor.
Qed.
End Composition.

(** X7.  The records of a crawl are those of the actor pages, reached
    through the cast page.  Under the dispatcher of the spec, a finished
    run that started from one request for a title page has emitted, up
    to order, the records [parse_actor_page] yields on each page that
    [parse_full_credits] requested from the cast page that [parse]
    requested; [parse] and [parse_full_credits] add no record of their
    own, and a page that cannot be fetched or that raises adds only what
    it had yielded. *)
Theorem X7_crawl_composes_the_callbacks (web : gmap string Engine.Page)
    (seed : Request) (st : Engine.state) :
  callback seed = cb_parse ->
  Engine.steps web
    {| Engine.pending := [seed]; Engine.emitted := [];
       Engine.failures := [] |} st ->
  Engine.pending st = [] ->
  Engine.emitted st ≡ₚ
    Engine.requests (yielded (Engine.handle web seed)) ≫= (fun cast =>
      Engine.requests (yielded (Engine.handle web cast)) ≫= (fun actor =>
        Engine.records (yielded (Engine.handle web actor)))).
Proof.
  intros Hseed Hrun Hend.
  rewrite (finished_records _ _ _ Hrun Hend). cbn [Engine.emitted app].
  cbn [Engine.pending]. by rewrite crawl_records_title.
Qed.

Lemma X7_crawl_composes_the_callbacks_witness :
  Engine.emitted (Engine.run Fixtures.web [0; 0; 2; 1; 0] Fixtures.seed) ≡ₚ
  [{| actor := Some "Jane Doe"; movie_or_TV_name := "Film A" |};
   {| actor := Some "Jane Doe"; movie_or_TV_name := "Film B" |};
   {| actor := Some "Ann Poe"; movie_or_TV_name := "Film E" |}].
Proof.
  rewrite (X7_crawl_composes_the_callbacks Fixtures.web
             {| req_url := Fixtures.title_url; callback := cb_parse |}
             (Engine.run Fixtures.web [0; 0; 2; 1; 0] Fixtures.seed)
             eq_refl (run_steps _ _ _) ltac:(vm_compute; reflexivity)).
  vm_compute. reflexivity.
Defined.
